(** * Hartree-Fock pretraining (ferminet/pretrain.py): model and properties

    Part I is the model, in the layout of the Python module:
    - [Np]: the NumPy/JAX array operations the module calls (an array is a
      shape and a row-major buffer; reshape with one inferred dimension,
      basic slicing, concatenation along an axis, broadcasting);
    - [Reference]: [eval_orbitals] and [eval_slater], with the sign and
      log-determinant routine they call;
    - [Pretrain]: [loss_fn], [pretrain_step] as the replicas of a mapped
      axis run it, and the driver [pretrain_hartree_fock];
    - [Toy]: a small concrete system on which the model is run.

    Part II states and proves the properties; Part III adds further
    properties of the same functions.

    Floating-point numbers are idealised: array elements range over an
    ordered ring or field [R]; [exp] and [log] are uninterpreted. *)

Set Warnings "-all".
From HB Require Import structures.
From mathcomp Require Import boot order algebra.
From mathcomp Require Import ring.
From Stdlib Require Import String Lia.

Set Implicit Arguments.
Unset Strict Implicit.
Unset Printing Implicit Defensive.

Import GRing.Theory Num.Theory.

(** ** Python exceptions and fallible computations *)

Inductive exn : Type :=
| ValueError (msg : string)
| TypeError (msg : string)
| AttributeError (msg : string)
| IndexError (msg : string)
| LinAlgError (msg : string).

Inductive result (A : Type) : Type :=
| Ok (a : A)
| Raise (e : exn).

Arguments Ok {A} a.
Arguments Raise {A} e.

Definition rbind {A B : Type} (r : result A) (k : A -> result B) : result B :=
  match r with
  | Ok a => k a
  | Raise e => Raise e
  end.

Declare Scope result_scope.
Delimit Scope result_scope with res.
Notation "x <- e ;; k" := (rbind e (fun x => k))
  (at level 100, e at next level, right associativity) : result_scope.
Notation "' p <- e ;; k" := (rbind e (fun p => k))
  (at level 100, p pattern, e at next level, right associativity) : result_scope.


(** ** Arithmetic on row-major offsets *)

Definition prodn (s : seq nat) : nat := foldr muln 1 s.

(** ** NumPy arrays *)

Module Np.
Section Array.

Variable T : Type.
Variable t0 : T.

(** An array is its shape and its elements in row-major (C) order. *)
Record ndarray : Type := NdArray { shape : seq nat; data : seq T }.

Definition wf (a : ndarray) : bool := size (data a) == prodn (shape a).

(** [a.shape[k]] for a non-negative [k]. *)
Definition shape_at (a : ndarray) (k : nat) : result nat :=
  if k < size (shape a) then Ok (nth 0 (shape a) k)
  else Raise (IndexError "tuple index out of range").

(** [a.shape[-1]]. *)
Definition shape_last (a : ndarray) : result nat :=
  if shape a is _ :: _ then Ok (last 0 (shape a))
  else Raise (IndexError "tuple index out of range").

(** [a.shape[:-1]]. *)
Definition leading_dims (a : ndarray) : seq nat :=
  take (size (shape a)).-1 (shape a).

(** Row-major offset of a multi-index, [None] when the index has the wrong
    rank or leaves the array. *)
Fixpoint ravel (sh idx : seq nat) (acc : nat) : option nat :=
  match sh, idx with
  | [::], [::] => Some acc
  | d :: sh', i :: idx' => if i < d then ravel sh' idx' (acc * d + i) else None
  | _, _ => None
  end.

Definition get (a : ndarray) (idx : seq nat) : option T :=
  if ravel (shape a) idx 0 is Some k then Some (nth t0 (data a) k) else None.

(** [zeros(shape)], with [t0] for 0.0. *)
Definition zeros (sh : seq nat) : ndarray := NdArray sh (nseq (prodn sh) t0).

(** The [k]-th block of [n] consecutive elements of a buffer. *)
Definition block (n : nat) (s : seq T) (k : nat) : seq T := take n (drop (k * n) s).

(** A Python axis number, possibly negative, against a rank. *)
Definition norm_axis (rank : nat) (axis : int) : option nat :=
  match axis with
  | Posz k => if k < rank then Some k else None
  | Negz k => if k < rank then Some (rank - k.+1) else None
  end.

(** Shapes that agree everywhere except at position [ax]. *)
Definition same_off_axis (ax : nat) (s1 s2 : seq nat) : bool :=
  (size s1 == size s2) && (take ax s1 == take ax s2)
  && (drop ax.+1 s1 == drop ax.+1 s2).

(** [concatenate((a, b), axis)]: for every index before the axis, the block
    of [a] followed by the block of [b]. *)
Definition concatenate (a b : ndarray) (axis : int) : result ndarray :=
  if shape a is [::] then
    Raise (ValueError "zero-dimensional arrays cannot be concatenated")
  else
  match norm_axis (size (shape a)) axis with
  | None => Raise (ValueError "axis is out of bounds for array")
  | Some ax =>
      if same_off_axis ax (shape a) (shape b) then
        let outer := prodn (take ax (shape a)) in
        let na := prodn (drop ax (shape a)) in
        let nb := prodn (drop ax (shape b)) in
        Ok (NdArray
              (take ax (shape a)
               ++ (nth 0 (shape a) ax + nth 0 (shape b) ax)
               :: drop ax.+1 (shape a))
              (flatten [seq block na (data a) k ++ block nb (data b) k
                       | k <- iota 0 outer]))
      else Raise (TypeError "cannot concatenate arrays whose shapes differ off the axis")
  end.

(** A dimension of [reshape]'s target shape: a number, or [-1] ([None]). *)
Definition newshape : Type := seq (option nat).

Definition known_dims (ns : newshape) : seq nat := pmap id ns.

(** [reshape(a, newshape)]: the buffer is kept, the shape replaced. At most
    one dimension may be [-1]; it is inferred from the size of the array and
    the product of the others, which must be non-zero and divide the size. *)
Definition reshape (a : ndarray) (ns : newshape) : result ndarray :=
  let sz := prodn (shape a) in
  let known := prodn (known_dims ns) in
  match count (fun d => ~~ isSome d) ns with
  | 0 =>
      if sz == known then Ok (NdArray (known_dims ns) (data a))
      else Raise (ValueError "cannot reshape array")
  | 1 =>
      if (known == 0) || (sz %% known != 0)
      then Raise (ValueError "cannot reshape array")
      else Ok (NdArray [seq odflt (sz %/ known) d | d <- ns] (data a))
  | _ => Raise (ValueError "can only specify one unknown dimension")
  end.

(** A Python slice [start:stop] with a non-negative start and stop, either
    of which may be omitted. *)
Record pyslice : Type := Slice { start : option nat; stop : option nat }.

Definition slice_lo (s : pyslice) (dim : nat) : nat := minn (odflt 0 (start s)) dim.
Definition slice_hi (s : pyslice) (dim : nat) : nat := minn (odflt dim (stop s)) dim.
Definition slice_len (s : pyslice) (dim : nat) : nat := slice_hi s dim - slice_lo s dim.

(** The blocks [F b i] for [b < nb] and [st <= i < st + m], in row-major
    order. *)
Definition flatten2 (F : nat -> nat -> seq T) (nb st m : nat) : seq T :=
  flatten [seq flatten [seq F b i | i <- iota st m] | b <- iota 0 nb].

(** Of [nb] matrices of [r] rows and [c] columns: rows [rlo, rlo + rlen)
    and columns [clo, clo + clen) of each. *)
Definition slice_data (s : seq T) (nb r c rlo rlen clo clen : nat) : seq T :=
  flatten2 (fun b i => take clen (drop clo (block c s (b * r + i)))) nb rlo rlen.

(** [a[..., rs, cs]]: basic slicing of the last two axes. *)
Definition slice_last2 (a : ndarray) (rs cs : pyslice) : result ndarray :=
  let rank := size (shape a) in
  if rank < 2 then Raise (IndexError "too many indices for array")
  else
    let lead := take (rank - 2) (shape a) in
    let r := nth 0 (shape a) (rank - 2) in
    let c := nth 0 (shape a) (rank - 1) in
    Ok (NdArray
          (lead ++ [:: slice_len rs r; slice_len cs c])
          (slice_data (data a) (prodn lead) r c (slice_lo rs r) (slice_len rs r)
             (slice_lo cs c) (slice_len cs c))).

(** [a[:, None, ...]]: a new axis of length one after the first. *)
Definition expand_dims1 (a : ndarray) : result ndarray :=
  if shape a is d :: sh then Ok (NdArray (d :: 1 :: sh) (data a))
  else Raise (IndexError "too many indices for array").

(** Broadcasting, on shapes read from the last axis backwards. *)
Fixpoint bshape (r1 r2 : seq nat) : option (seq nat) :=
  match r1, r2 with
  | [::], _ => Some r2
  | _, [::] => Some r1
  | d1 :: r1', d2 :: r2' =>
      if (d1 == d2) || (d2 == 1) then omap (cons d1) (bshape r1' r2')
      else if d1 == 1 then omap (cons d2) (bshape r1' r2')
      else None
  end.

(** Offset in an operand of reversed shape [rin] of the element that lands
    at offset [t] of the result of reversed shape [rout]. *)
Fixpoint boffset (rin rout : seq nat) (t : nat) : nat :=
  match rin, rout with
  | d :: rin', e :: rout' =>
      (if d == 1 then 0 else t %% e) + d * boffset rin' rout' (t %/ e)
  | _, _ => 0
  end.

(** An elementwise binary operation with broadcasting. *)
Definition binop (f : T -> T -> T) (a b : ndarray) : result ndarray :=
  match bshape (rev (shape a)) (rev (shape b)) with
  | Some rs =>
      Ok (NdArray (rev rs)
            (mkseq (fun t => f (nth t0 (data a) (boffset (rev (shape a)) rs t))
                                (nth t0 (data b) (boffset (rev (shape b)) rs t)))
               (prodn rs)))
  | None => Raise (ValueError "operands could not be broadcast together")
  end.

Definition unop (f : T -> T) (a : ndarray) : ndarray :=
  NdArray (shape a) [seq f x | x <- data a].

(** Splitting along the first axis, and stacking equal shapes back. *)
Definition unstack (a : ndarray) : result (seq ndarray) :=
  if shape a is d :: sh then
    Ok [seq NdArray sh (block (prodn sh) (data a) k) | k <- iota 0 d]
  else Raise (ValueError "array has no leading axis").

Definition stack (xs : seq ndarray) : result ndarray :=
  let sh := if xs is x :: _ then shape x else [::] in
  if all (fun x => shape x == sh) xs then
    Ok (NdArray (size xs :: sh) (flatten [seq data x | x <- xs]))
  else Raise (ValueError "all input arrays must have the same shape").

End Array.
End Np.

Arguments Np.NdArray {T} shape data.

Notation ndarray := Np.ndarray.
Notation NdArray := Np.NdArray.

(** ** Calls to external code, in program order

    A computation that may raise, together with the arguments of the calls
    it made to an external routine up to that point. *)

Section Traced.

Variable E : Type.

Definition traced (A : Type) : Type := (seq E * result A)%type.

Definition tret {A : Type} (a : A) : traced A := ([::], Ok a).

Definition tbind {A B : Type} (m : traced A) (k : A -> traced B) : traced B :=
  match m with
  | (l, Ok a) => let: (l', r) := k a in (l ++ l', r)
  | (l, Raise e) => (l, Raise e)
  end.

Definition lift {A : Type} (r : result A) : traced A := ([::], r).

Definition emit (e : E) : traced unit := ([:: e], Ok tt).

End Traced.

Arguments tret {E A} a.
Arguments lift {E A} r.

Declare Scope traced_scope.
Delimit Scope traced_scope with tr.
Notation "x <- e ;; k" := (tbind e (fun x => k))
  (at level 100, e at next level, right associativity) : traced_scope.
Notation "' p <- e ;; k" := (tbind e (fun p => k))
  (at level 100, p pattern, e at next level, right associativity) : traced_scope.

(** [[f(x) for x in xs]] for a fallible [f]: the first failure is raised. *)
Fixpoint mapM {A B : Type} (f : A -> result B) (xs : seq A) : result (seq B) :=
  match xs with
  | [::] => Ok [::]
  | x :: xs' =>
      match f x with
      | Ok y => match mapM f xs' with
                | Ok ys => Ok (y :: ys)
                | Raise e => Raise e
                end
      | Raise e => Raise e
      end
  end.

(** [xs[k]] on a Python list or tuple. *)
Definition list_get {A : Type} (xs : seq A) (k : nat) : result A :=
  if drop k xs is x :: _ then Ok x else Raise (IndexError "index out of range").

(** ** The reference evaluator: [eval_orbitals] and [eval_slater] *)

Module Reference.
Section Evaluator.

Variable R : realDomainType.

(** The natural logarithm, uninterpreted. *)
Variable ln : R -> R.

Local Open Scope ring_scope.

(** A row without its entry number [j]. *)
Definition del (j : nat) (r : seq R) : seq R := take j r ++ drop j.+1 r.

(** [foldr] sum of a list of numbers. *)
Definition sum_list (xs : seq R) : R := foldr +%R 0 xs.

(** The determinant of the [n]-by-[n] matrix of rows [rows], expanded
    along its first row. *)
Fixpoint det (n : nat) (rows : seq (seq R)) : R :=
  match n with
  | 0%N => 1
  | n'.+1 =>
      sum_list [seq (-1) ^+ j * nth 0 (head [::] rows) j
                    * det n' [seq del j r | r <- behead rows]
               | j <- iota 0 n]
  end.

(** The rows of matrix number [b] of a buffer of [n]-by-[n] matrices. *)
Definition matrix_rows (n : nat) (s : seq R) (b : nat) : seq (seq R) :=
  [seq Np.block n s (b * n + i) | i <- iota 0 n].

(** [np.linalg.slogdet]: sign and logarithm of the absolute value of the
    determinant of every matrix of a stack. *)
Definition slogdet (a : ndarray R) : result (ndarray R * ndarray R) :=
  let rank := size (Np.shape a) in
  if (rank < 2)%N then
    Raise (LinAlgError "array must be at least two-dimensional")
  else
    let lead := take (rank - 2) (Np.shape a) in
    let r := nth 0%N (Np.shape a) (rank - 2) in
    let c := nth 0%N (Np.shape a) (rank - 1) in
    if r != c then
      Raise (LinAlgError "last 2 dimensions of the array must be square")
    else
      let dets := [seq det r (matrix_rows r (Np.data a) b) | b <- iota 0 (prodn lead)] in
      Ok (NdArray lead [seq Num.sg d | d <- dets],
          NdArray lead [seq ln `|d| | d <- dets]).

(** The values [pos] may be bound to: a NumPy array, a JAX array, or
    something that is not an array (a list of numbers, a number, None). *)
Inductive pyobj : Type :=
| PyNdarray (a : ndarray R)
| PyJaxArray (a : ndarray R)
| PyList (l : seq R)
| PyFloat (x : R)
| PyNone.

(** [isinstance(pos, np.ndarray)]. *)
Definition isinstance_ndarray (pos : pyobj) : bool :=
  if pos is PyNdarray _ then true else false.

(** [pos.copy()]. *)
Definition py_copy (pos : pyobj) : result pyobj :=
  match pos with
  | PyNdarray a => Ok (PyNdarray a)
  | PyJaxArray a => Ok (PyJaxArray a)
  | PyList l => Ok (PyList l)
  | PyFloat _ => Raise (AttributeError "'float' object has no attribute 'copy'")
  | PyNone => Raise (AttributeError "'NoneType' object has no attribute 'copy'")
  end.

(** [pos.shape]. *)
Definition py_shape (pos : pyobj) : result (seq nat) :=
  match pos with
  | PyNdarray a | PyJaxArray a => Ok (Np.shape a)
  | PyList _ => Raise (AttributeError "'list' object has no attribute 'shape'")
  | PyFloat _ => Raise (AttributeError "'float' object has no attribute 'shape'")
  | PyNone => Raise (AttributeError "'NoneType' object has no attribute 'shape'")
  end.

(** [np.reshape(pos, newshape)], which first converts [pos] to an array. *)
Definition np_reshape (pos : pyobj) (ns : Np.newshape) : result (ndarray R) :=
  match pos with
  | PyNdarray a | PyJaxArray a => Np.reshape a ns
  | PyList l => Np.reshape (NdArray [:: size l] l) ns
  | PyFloat x => Np.reshape (NdArray [::] [:: x]) ns
  | PyNone => Raise (ValueError "cannot reshape array")
  end.

(** The solved mean-field model, as far as this module uses it: the
    evaluation of the molecular orbitals of both spin channels at a
    [(n, 3)] array of points. *)
Record scf : Type := Scf { eval_mos : ndarray R -> seq (ndarray R) }.

(** [scf_approx.eval_mos(pos)], recorded as an external call. *)
Definition call_eval_mos (scf_approx : scf) (pos : ndarray R)
  : traced (ndarray R) (seq (ndarray R)) :=
  ([:: pos], Ok (eval_mos scf_approx pos)).

Local Open Scope traced_scope.

Definition eval_orbitals (scf_approx : scf) (pos : pyobj) (spins : nat * nat)
  : traced (ndarray R) (ndarray R * ndarray R) :=
  pos <- lift (if isinstance_ndarray pos then Ok pos
               else match py_copy pos with
                    | Raise (AttributeError _) =>
                        Raise (ValueError "Input must be either NumPy or JAX array.")
                    | r => r
                    end) ;;
  sh <- lift (py_shape pos) ;;
  let leading_dims := take (size sh).-1 sh in
  pos <- lift (np_reshape pos [:: None; Some 3%N]) ;;
  mos <- call_eval_mos scf_approx pos ;;
  mos <- lift (mapM (fun mo => Np.reshape mo
                       ([seq Some d | d <- leading_dims]
                        ++ [:: Some (spins.1 + spins.2)%N; None])) mos) ;;
  mos0 <- lift (list_get mos 0) ;;
  alpha_spin <- lift (Np.slice_last2 mos0 (Np.Slice None (Some spins.1))
                                          (Np.Slice None (Some spins.1))) ;;
  mos1 <- lift (list_get mos 1) ;;
  beta_spin <- lift (Np.slice_last2 mos1 (Np.Slice (Some spins.1) None)
                                         (Np.Slice None (Some spins.2))) ;;
  tret (alpha_spin, beta_spin).

Definition eval_slater (scf_approx : scf) (pos : pyobj) (spins : nat * nat)
  : traced (ndarray R) (ndarray R * ndarray R) :=
  matrices <- eval_orbitals scf_approx pos spins ;;
  slogdets <- lift (mapM slogdet [:: matrices.1; matrices.2]) ;;
  signs <- lift (mapM (fun elem => Ok elem.1) slogdets) ;;
  sign_alpha <- lift (list_get signs 0) ;;
  sign_beta <- lift (list_get signs 1) ;;
  logs <- lift (mapM (fun elem => Ok elem.2) slogdets) ;;
  log_abs_wf_alpha <- lift (list_get logs 0) ;;
  log_abs_wf_beta <- lift (list_get logs 1) ;;
  log_abs_slater_determinant <-
    lift (Np.binop 0 +%R log_abs_wf_alpha log_abs_wf_beta) ;;
  sign <- lift (Np.binop 0 *%R sign_alpha sign_beta) ;;
  tret (sign, log_abs_slater_determinant).

(** *** Notions the properties are stated with *)

(** The array a value holds, when it is a NumPy or a JAX array. *)
Definition array_of (pos : pyobj) : option (ndarray R) :=
  match pos with
  | PyNdarray a | PyJaxArray a => Some a
  | _ => None
  end.

(** [pos] has no attribute [copy]. *)
Definition no_copy_attribute (pos : pyobj) : bool :=
  if py_copy pos is Raise (AttributeError _) then true else false.

(** The error [eval_orbitals] raises for an input that is no array. *)
Definition input_type_error : exn :=
  ValueError "Input must be either NumPy or JAX array.".

Definition is_input_type_error (e : exn) : bool :=
  if e is ValueError msg then
    String.eqb msg "Input must be either NumPy or JAX array."
  else false.

(** The values a sign may take. *)
Definition is_sign (x : R) : bool := [|| x == -1, x == 0 | x == 1].

(** Electron [e] after electrons [i] and [j] changed places. *)
Definition exchange (i j e : nat) : nat :=
  if e == i then j else if e == j then i else e.

(** The positions with the coordinate triples of electrons [i] and [j]
    exchanged in every configuration. *)
Definition swap_electrons (nelec i j : nat) (a : ndarray R) : ndarray R :=
  NdArray (Np.shape a)
    (Np.flatten2 (fun b e => Np.block 3 (Np.data a) (b * nelec + exchange i j e))
       (prodn (Np.leading_dims a)) 0 nelec).

Definition swap_pos (nelec i j : nat) (pos : pyobj) : pyobj :=
  match pos with
  | PyNdarray a => PyNdarray (swap_electrons nelec i j a)
  | PyJaxArray a => PyJaxArray (swap_electrons nelec i j a)
  | _ => pos
  end.

(** Electrons [i] and [j] have the same spin: the spin-up electrons come
    first. *)
Definition same_spin (n_up n_down i j : nat) : bool :=
  ((i < n_up) && (j < n_up))%N
  || [&& n_up <= i, n_up <= j, i < n_up + n_down & j < n_up + n_down]%N.

(** Modelled from the spec: [eval_mos] is defined in ferminet/utils/scf.py,
    which is not among the sources. The spec has it evaluate all
    basis-function molecular orbitals at each point: row [k] of an array it
    returns holds the values, at point [k], of the orbitals [phi] of one spin
    channel. *)
Definition orbitals_at (nbasis : nat) (phi : seq R -> seq R) (pts : ndarray R)
  : ndarray R :=
  let n := nth 0%N (Np.shape pts) 0 in
  NdArray [:: n; nbasis]
    (flatten [seq phi (Np.block 3 (Np.data pts) k) | k <- iota 0 n]).

(** A model whose [eval_mos] evaluates [nbasis] orbitals per spin channel,
    point by point. *)
Definition pointwise (scf_approx : scf) (nbasis : nat)
    (phi_up phi_dn : seq R -> seq R) : Prop :=
  [/\ forall p, size (phi_up p) = nbasis,
      forall p, size (phi_dn p) = nbasis
    & forall pts n, Np.shape pts = [:: n; 3%N] ->
        eval_mos scf_approx pts
        = [:: orbitals_at nbasis phi_up pts; orbitals_at nbasis phi_dn pts]].

(** The array of points [eval_orbitals] passes to [eval_mos]. *)
Definition points (lead : seq nat) (nelec : nat) (a : ndarray R) : ndarray R :=
  NdArray [:: (prodn lead * nelec)%N; 3%N] (Np.data a).

(** Rows [lo, lo + n) and the first [n] columns of every matrix of a buffer
    of orbital values. *)
Definition occupied (s : seq R) (lead : seq nat) (nelec nbasis lo n : nat)
  : ndarray R :=
  NdArray (lead ++ [:: n; minn n nbasis])
    (Np.slice_data s (prodn lead) nelec nbasis lo n 0 (minn n nbasis)).

(** The determinants of its matrices. *)
Definition occupied_dets (s : seq R) (lead : seq nat) (nelec nbasis lo n : nat)
  : seq R :=
  [seq det n (matrix_rows n (Np.slice_data s (prodn lead) nelec nbasis lo n 0 n) b)
  | b <- iota 0 (prodn lead)].

(** What [eval_slater] computes from the two matrices. *)
Definition slater_of (alpha beta : ndarray R) : result (ndarray R * ndarray R) :=
  (x <- slogdet alpha ;;
   y <- slogdet beta ;;
   l <- Np.binop 0 +%R x.2 y.2 ;;
   s <- Np.binop 0 *%R x.1 y.1 ;;
   Ok (s, l))%res.

End Evaluator.

Arguments is_sign {R} x.

End Reference.

(** ** The pretraining step and its driver *)

Module Pretrain.
Section Pretraining.

Variable R : realFieldType.

(** [jnp.exp], uninterpreted. *)
Variable exp : R -> R.

(** Pytrees of network parameters (gradients and optimizer updates have
    the same structure), the envelope sub-tree [p['envelope']], optimizer
    states and random keys. *)
Variable params : Type.
Variable envelope_params : Type.
Variable get_envelope : params -> envelope_params.
Variable opt_state : Type.
Variable prng_key : Type.

(** An optimizer of the optax API. *)
Record optimizer : Type := Optimizer {
  init : params -> opt_state;
  update : params -> opt_state -> params -> params * opt_state
}.

(** [optax.apply_updates]. *)
Variable apply_updates : params -> params -> params.

(** Modelled from the spec: [mcmc.mh_update] is defined in ferminet/mcmc.py,
    which is not among the sources. The spec gives its interface as
    [advance(params, network_fn, positions, rng, logprob, move_width) ->
    (new_positions, new_rng, new_logprob, accept_count)]. *)
Variable mh_update :
  params -> (params -> ndarray R -> ndarray R) -> ndarray R -> prng_key ->
  ndarray R -> R -> ndarray R * prng_key * ndarray R * R.

(** Reverse-mode differentiation of a scalar function of the parameters,
    uninterpreted. *)
Variable grad : (params -> result R) -> params -> params.

(** [jax.lax.pmean] of a pytree over the replicas of the mapped axis. *)
Variable tree_pmean : seq params -> params.

Local Open Scope ring_scope.

(** [jax.lax.pmean] of a scalar over the replicas of the mapped axis. *)
Definition pmean (xs : seq R) : R := foldr +%R 0 xs / (size xs)%:R.

(** [jnp.mean] of all the elements of an array. *)
Definition np_mean (a : ndarray R) : R :=
  foldr +%R 0 (Np.data a) / (size (Np.data a))%:R.

(** [jax.value_and_grad(f, argnums=1)]. *)
Definition value_and_grad
  (f : ndarray R -> params -> seq (ndarray R) -> result R)
  (x : ndarray R) (p : params) (t : seq (ndarray R)) : result (R * params) :=
  (v <- f x p t ;; Ok (v, grad (fun q => f x q t) p))%res.

(** What one replica of the mapped axis holds when it enters the step: the
    arguments [data, target, params, state, key, logprob]. *)
Record replica : Type := Replica {
  r_data : ndarray R;
  r_target : seq (ndarray R);
  r_params : params;
  r_state : opt_state;
  r_key : prng_key;
  r_logprob : ndarray R
}.

(** What it returns: [data, params, state, loss_val, logprob]. *)
Record step_out : Type := StepOut {
  o_data : ndarray R;
  o_params : params;
  o_state : opt_state;
  o_loss : R;
  o_logprob : ndarray R
}.

(** The external calls of one step, with their arguments. *)
Inductive call : Type :=
| CallValueAndGrad (data : ndarray R) (p : params) (target : seq (ndarray R))
| CallPmean (search_direction : params)
| CallOptimizerUpdate (search_direction : params) (state : opt_state) (p : params)
| CallApplyUpdates (p updates : params)
| CallMhUpdate (p : params) (data : ndarray R) (key : prng_key)
    (logprob : ndarray R) (width : R).

Section MakePretrainStep.

Variable batch_envelope_fn : envelope_params -> ndarray R -> result (ndarray R).
Variable batch_orbitals : params -> ndarray R -> result (seq (ndarray R)).
Variable batch_network : params -> ndarray R -> ndarray R.
Variable opt : optimizer.
Variable full_det : bool.

(** [n = jnp.array([tgt.shape[-1] for tgt in target]).sum()]. *)
Definition target_width (target : seq (ndarray R)) : result nat :=
  (ns <- mapM (@Np.shape_last R) target ;; Ok (sumn ns))%res.

(** The target of the full-determinant mode: the two reference matrices on
    the diagonal of one matrix, zeros elsewhere. *)
Definition full_det_target (target : seq (ndarray R)) : result (ndarray R) :=
  (target0 <- list_get target 0 ;;
   ndet <- Np.shape_at target0 0 ;;
   na <- Np.shape_at target0 1 ;;
   target1 <- list_get target 1 ;;
   nb <- Np.shape_at target1 1 ;;
   top <- Np.concatenate target0 (Np.zeros 0 [:: ndet; na; nb]) (-1) ;;
   bottom <- Np.concatenate (Np.zeros 0 [:: ndet; nb; na]) target1 (-1) ;;
   Np.concatenate top bottom (-2))%res.

(** [jnp.mean((t[:, None, ...] - env * o)**2)]. *)
Definition mean_square_error (t env o : ndarray R) : result R :=
  (t' <- Np.expand_dims1 t ;;
   eo <- Np.binop 0 *%R env o ;;
   d <- Np.binop 0 (fun a b => a - b) t' eo ;;
   Ok (np_mean (Np.unop (fun v => v ^+ 2) d)))%res.

(** The body of [loss_fn] up to its [result], for the [n] of the enclosing
    step. *)
Definition loss_result (n : nat) (x : ndarray R) (p : params)
  (target : seq (ndarray R)) : result R :=
  (env <- batch_envelope_fn (get_envelope p) x ;;
   let env := Np.unop (fun v => exp (v / n%:R)) env in
   last_dim <- Np.shape_last env ;;
   env <- Np.reshape env [:: Some last_dim; Some 1%N; Some 1%N; Some 1%N] ;;
   if full_det then
     target <- full_det_target target ;;
     os <- batch_orbitals p x ;;
     o <- list_get os 0 ;;
     mean_square_error target env o
   else
     os <- batch_orbitals p x ;;
     rs <- mapM (fun to => mean_square_error to.1 env to.2) (zip target os) ;;
     Ok (foldr +%R 0 rs))%res.

(** What replica [v] contributes to a [pmean] inside [loss_fn]. *)
Definition contribution (v : replica) : result R :=
  (n <- target_width (r_target v) ;;
   loss_result n (r_data v) (r_params v) (r_target v))%res.

(** [loss_fn] as replica number [w] of [ws] runs it: its own [result], and
    the mean of the results of all replicas. *)
Definition loss_fn (ws : seq replica) (w : nat) (n : nat)
  (x : ndarray R) (p : params) (target : seq (ndarray R)) : result R :=
  (result <- loss_result n x p target ;;
   results <- mapM (fun v => if v.1 == w then Ok result else contribution v.2)
                (zip (iota 0 (size ws)) ws) ;;
   Ok (pmean results))%res.

(** [val_and_grad(data, params, target)] on replica [w]. *)
Definition loss_and_grad (ws : seq replica) (w : nat) (me : replica)
  : result (R * params) :=
  (n <- target_width (r_target me) ;;
   value_and_grad (loss_fn ws w n) (r_data me) (r_params me) (r_target me))%res.

Local Open Scope traced_scope.

(** One step on replica [w], which holds [me]; [ws] are the replicas of
    the mapped axis. *)
Definition pretrain_step (ws : seq replica) (w : nat) (me : replica)
  : traced call step_out :=
  _ <- emit (CallValueAndGrad (r_data me) (r_params me) (r_target me)) ;;
  lg <- lift (loss_and_grad ws w me) ;;
  let loss_val := lg.1 in
  let search_direction := lg.2 in
  _ <- emit (CallPmean search_direction) ;;
  directions <- lift (mapM (fun v => if v.1 == w then Ok search_direction
                                     else (lg' <- loss_and_grad ws v.1 v.2 ;;
                                           Ok lg'.2)%res)
                        (zip (iota 0 (size ws)) ws)) ;;
  let search_direction := tree_pmean directions in
  _ <- emit (CallOptimizerUpdate search_direction (r_state me) (r_params me)) ;;
  let us := update opt search_direction (r_state me) (r_params me) in
  let updates := us.1 in
  let state := us.2 in
  _ <- emit (CallApplyUpdates (r_params me) updates) ;;
  let p := apply_updates (r_params me) updates in
  _ <- emit (CallMhUpdate p (r_data me) (r_key me) (r_logprob me) 0) ;;
  let: (data, key, logprob, _) :=
    mh_update p batch_network (r_data me) (r_key me) (r_logprob me) 0 in
  tret (StepOut data p state loss_val logprob).

(** [constants.pmap(pretrain_step)]: every replica runs the step. *)
Definition pmap_pretrain_step (ws : seq replica) : result (seq step_out) :=
  mapM (fun v => (pretrain_step ws v.1 v.2).2) (zip (iota 0 (size ws)) ws).

(** The local search direction of every replica of the axis. *)
Definition local_directions (ws : seq replica) : result (seq params) :=
  mapM (fun v => (lg <- loss_and_grad ws v.1 v.2 ;; Ok lg.2)%res)
    (zip (iota 0 (size ws)) ws).

(** Replica number [w] of [ws] is [me]. *)
Definition replica_at (ws : seq replica) (w : nat) (me : replica) : Prop :=
  (w < size ws)%N /\ forall r0, nth r0 ws w = me.

End MakePretrainStep.

(** *** The driver *)

(** [jax.vmap(f, (None, 0))] for a function that returns one array: [f] on
    every slice of the first axis of [x], the results stacked. (For an empty
    axis the result is given the shape [(0,)].) *)
Definition vmap (A : Type) (f : A -> ndarray R -> ndarray R) (p : A)
  (x : ndarray R) : result (ndarray R) :=
  (xs <- Np.unstack x ;; Np.stack [seq f p y | y <- xs])%res.

(** The same for a function that returns a list of arrays. *)
Definition vmap_list (A : Type) (f : A -> ndarray R -> seq (ndarray R)) (p : A)
  (x : ndarray R) : result (seq (ndarray R)) :=
  (xs <- Np.unstack x ;;
   let outs := [seq f p y | y <- xs] in
   mapM (fun k => Np.stack [seq nth (NdArray [::] [::]) out k | out <- outs])
     (iota 0 (size (head [::] outs))))%res.

(** The network module, as far as the driver uses it. *)
Variable aux : Type.
Variable fermi_net_orbitals :
  params -> ndarray R -> ndarray R -> nat * nat -> string -> bool ->
  seq (ndarray R) * aux.
Variable construct_input_features :
  ndarray R -> ndarray R -> ndarray R * ndarray R * ndarray R * ndarray R.
Variable exact_cusp_envelope :
  ndarray R -> ndarray R -> envelope_params -> ndarray R -> nat * nat -> ndarray R.
Variable output_envelope : ndarray R -> envelope_params -> ndarray R.

(** [optax.adam(learning_rate)] and [jax_utils.p_split]. *)
Variable adam : R -> optimizer.
Variable p_split : seq prng_key -> seq prng_key * seq prng_key.

Record atom : Type := Atom { coords : seq R; charge : R }.

(** A Python float, as the zero-dimensional array it is traced as. *)
Definition py_float (x : R) : ndarray R := NdArray [::] [:: x].

(** The function the driver binds to [envelope_fn] for an [envelope_type]. *)
Definition envelope_fn (envelope_type : string) (atoms charges : ndarray R)
  (electrons : nat * nat) : envelope_params -> ndarray R -> ndarray R :=
  if String.eqb envelope_type "exact_cusp" then
    fun p x =>
      let: (ae, _, _, r_ee) := construct_input_features x atoms in
      exact_cusp_envelope ae r_ee p charges electrons
  else if String.eqb envelope_type "output" then
    fun p x =>
      let: (ae, _, _, _) := construct_input_features x atoms in
      output_envelope ae p
  else
    fun p x => py_float 0.

(** The values of the keyword arguments a caller leaves out. *)
Definition default_envelope_type : string := "full".
Definition default_full_det : bool := false.
Definition default_iterations : nat := 1000.

(** What the loop carries from one iteration to the next: [data, params,
    opt_state_pt, sharded_key, logprob]; the parameters, optimizer states
    and keys one per device, the arrays with the devices as first axis. *)
Record loop_state : Type := LoopState {
  ls_data : ndarray R;
  ls_params : seq params;
  ls_opt_state : seq opt_state;
  ls_key : seq prng_key;
  ls_logprob : ndarray R
}.

(** The arguments of a mapped call, split over the devices. *)
Definition shard (data : ndarray R) (target : ndarray R * ndarray R)
  (ps : seq params) (ss : seq opt_state) (keys : seq prng_key)
  (logprob : ndarray R) : result (seq replica) :=
  (ds <- Np.unstack data ;;
   ta <- Np.unstack target.1 ;;
   tb <- Np.unstack target.2 ;;
   lps <- Np.unstack logprob ;;
   if [&& size ta == size ds, size tb == size ds, size ps == size ds,
          size ss == size ds, size keys == size ds & size lps == size ds]
   then Ok [seq Replica v.1 [:: v.2.1; v.2.2.1] v.2.2.2.1 v.2.2.2.2.1
                  v.2.2.2.2.2.1 v.2.2.2.2.2.2
           | v <- zip ds (zip ta (zip tb (zip ps (zip ss (zip keys lps)))))]
   else Raise (ValueError "pmap got inconsistent sizes for array axes to be mapped"))%res.

Section Driver.

Variable batch_network : params -> ndarray R -> ndarray R.
Variable electrons : nat * nat.
Variable scf_approx : Reference.scf R.
Variable batch_envelope_fn : envelope_params -> ndarray R -> result (ndarray R).
Variable batch_orbitals : params -> ndarray R -> result (seq (ndarray R)).
Variable opt : optimizer.
Variable full_det : bool.

Local Open Scope traced_scope.

(** The body of the loop at iteration [t]; the trace is what
    [logging.info] receives. *)
Definition pretrain_iteration (t : nat) (st : loop_state)
  : traced (nat * R) loop_state :=
  target <- lift (Reference.eval_orbitals scf_approx
                    (Reference.PyJaxArray (ls_data st)) electrons).2 ;;
  let: (sharded_key, subkeys) := p_split (ls_key st) in
  ws <- lift (shard (ls_data st) target (ls_params st) (ls_opt_state st)
                subkeys (ls_logprob st)) ;;
  outs <- lift (pmap_pretrain_step batch_envelope_fn batch_orbitals
                  batch_network opt full_det ws) ;;
  data <- lift (Np.stack [seq o_data o | o <- outs]) ;;
  logprob <- lift (Np.stack [seq o_logprob o | o <- outs]) ;;
  let loss := [seq o_loss o | o <- outs] in
  loss0 <- lift (list_get loss 0) ;;
  _ <- emit (t, loss0) ;;
  tret (LoopState data [seq o_params o | o <- outs] [seq o_state o | o <- outs]
          sharded_key logprob).

(** [for t in range(iterations)], from iteration [t] on. *)
Fixpoint pretrain_loop (t iterations : nat) (st : loop_state)
  : traced (nat * R) loop_state :=
  match iterations with
  | 0 => tret st
  | k.+1 => st' <- pretrain_iteration t st ;; pretrain_loop t.+1 k st'
  end.

End Driver.

Local Open Scope traced_scope.

Definition pretrain_hartree_fock (ps : seq params) (data : ndarray R)
  (batch_network : params -> ndarray R -> ndarray R)
  (sharded_key : seq prng_key) (molecule : seq atom) (electrons : nat * nat)
  (scf_approx : Reference.scf R) (envelope_type : option string)
  (full_det : option bool) (iterations : option nat)
  : traced (nat * R) (seq params * ndarray R) :=
  let envelope_type := odflt default_envelope_type envelope_type in
  let full_det := odflt default_full_det full_det in
  let iterations := odflt default_iterations iterations in
  atoms <- lift (Np.stack [seq NdArray [:: size (coords a)] (coords a) | a <- molecule]) ;;
  let charges := NdArray [:: size molecule] [seq charge a | a <- molecule] in
  let batch_orbitals :=
    vmap_list (fun p y => (fermi_net_orbitals p y atoms electrons envelope_type full_det).1) in
  let opt := adam (3%:R / 10000%:R) in
  let opt_state_pt := [seq init opt p | p <- ps] in
  let batch_envelope_fn := vmap (envelope_fn envelope_type atoms charges electrons) in
  ds <- lift (Np.unstack data) ;;
  _ <- lift (if size ds == size ps then Ok tt
             else Raise (ValueError "pmap got inconsistent sizes for array axes to be mapped")) ;;
  lp <- lift (Np.stack [seq batch_network v.1 v.2 | v <- zip ps ds]) ;;
  let logprob := Np.unop (fun v => 2%:R * v) lp in
  st <- pretrain_loop batch_network electrons scf_approx batch_envelope_fn
          batch_orbitals opt full_det 0 iterations
          (LoopState data ps opt_state_pt sharded_key logprob) ;;
  tret (ls_params st, ls_data st).

End Pretraining.

Arguments CallValueAndGrad {R params opt_state prng_key} data p target.
Arguments CallPmean {R params opt_state prng_key} search_direction.
Arguments CallOptimizerUpdate {R params opt_state prng_key} search_direction state p.
Arguments CallApplyUpdates {R params opt_state prng_key} p updates.
Arguments CallMhUpdate {R params opt_state prng_key} p data key logprob width.

End Pretrain.

(** ** A small concrete system

    Two electrons on the rationals, the orbitals [x], [1] and [y] for both
    spin channels, one scalar parameter, a finite difference for the
    gradient and plain gradient descent for the optimizer. *)

Module Toy.

Local Open Scope ring_scope.

Definition orbitals (R : pzRingType) (p : seq R) : seq R :=
  [:: nth 0 p 0; 1; nth 0 p 1].

Definition scf (R : realDomainType) : Reference.scf R :=
  Reference.Scf (fun pts => [:: Reference.orbitals_at 3 (@orbitals R) pts;
                                Reference.orbitals_at 3 (@orbitals R) pts]).

Definition exp (x : rat) : rat := 1 + x.

Definition apply_updates (p u : rat) : rat := p + u.

Definition mh_update (p : rat) (f : rat -> ndarray rat -> ndarray rat)
  (data : ndarray rat) (key : nat) (logprob : ndarray rat) (width : rat)
  : ndarray rat * nat * ndarray rat * rat :=
  (data, key.+1, Np.unop (fun v => 2%:R * v) (f p data), width).

Definition grad (f : rat -> result rat) (p : rat) : rat :=
  match f (p + 1), f p with
  | Ok a, Ok b => a - b
  | _, _ => 0
  end.

Definition batch_envelope_fn : rat -> ndarray rat -> result (ndarray rat) :=
  Pretrain.vmap (fun _ _ => Pretrain.py_float 0).

Definition batch_orbitals (p : rat) (x : ndarray rat) : result (seq (ndarray rat)) :=
  let b := head 0%N (Np.shape x) in
  Ok [:: NdArray [:: b; 1%N; 1%N; 1%N] (nseq b p);
         NdArray [:: b; 1%N; 1%N; 1%N] (nseq b p)].

Definition batch_network (p : rat) (x : ndarray rat) : ndarray rat :=
  NdArray [:: head 0%N (Np.shape x)] (nseq (head 0%N (Np.shape x)) p).

Definition sgd : Pretrain.optimizer rat nat :=
  Pretrain.Optimizer (fun _ => 0%N) (fun g s p => (- g / 2%:R, s.+1)).

Definition p_split (keys : seq nat) : seq nat * seq nat :=
  ([seq k.+2 | k <- keys], [seq k.+1 | k <- keys]).

(** Two devices with one walker each. *)
Definition data0 : ndarray rat :=
  NdArray [:: 2%N; 1%N; 6%N]
    [:: 3%:R; 0; 0; 2%:R; 0; 0;  1; 0; 0; 5%:R; 0; 0].

Definition st0 : Pretrain.loop_state rat rat nat nat :=
  Pretrain.LoopState data0 [:: 1; 1] [:: 0%N; 0%N] [:: 7%N; 8%N]
    (NdArray [:: 2%N; 1%N] [:: 2%:R; 2%:R]).

(** The replicas that enter the first step. *)
Definition replica0 : Pretrain.replica rat rat nat nat :=
  Pretrain.Replica (NdArray [:: 1%N; 6%N] [:: 3%:R; 0; 0; 2%:R; 0; 0])
    [:: NdArray [:: 1%N; 1%N; 1%N] [:: 3%:R]; NdArray [:: 1%N; 1%N; 1%N] [:: 2%:R]]
    1 0%N 8%N (NdArray [:: 1%N] [:: 2%:R]).

Definition replica1 : Pretrain.replica rat rat nat nat :=
  Pretrain.Replica (NdArray [:: 1%N; 6%N] [:: 1; 0; 0; 5%:R; 0; 0])
    [:: NdArray [:: 1%N; 1%N; 1%N] [:: 1]; NdArray [:: 1%N; 1%N; 1%N] [:: 5%:R]]
    1 0%N 9%N (NdArray [:: 1%N] [:: 2%:R]).

(** The step, the mapped step and the body of the loop on this system. *)
Definition pretrain_step :=
  Pretrain.pretrain_step exp id apply_updates mh_update grad
    (@Pretrain.pmean rat) batch_envelope_fn batch_orbitals batch_network sgd false.

Definition pmap_pretrain_step :=
  Pretrain.pmap_pretrain_step exp id apply_updates mh_update grad
    (@Pretrain.pmean rat) batch_envelope_fn batch_orbitals batch_network sgd false.

Definition pretrain_iteration :=
  Pretrain.pretrain_iteration exp id apply_updates mh_update grad
    (@Pretrain.pmean rat) p_split batch_network (1%N, 1%N) (scf rat)
    batch_envelope_fn batch_orbitals sgd false.

(** Three electrons in two configurations, on the integers. *)
Definition walkers : ndarray int :=
  NdArray [:: 2%N; 9%N]
    [:: 1; 2; 3;  4; 5; 6;  7; 8; 9;   10; 11; 12;  1; 0; 0;  3; 5; 6].

End Toy.

(** ** Notions for the properties of Part III *)

(** The mean squared error between a target and the network orbitals as
    they are, without envelope: [mean((t[:, None, ...] - o)**2)]. *)
Definition plain_error (R : realFieldType) (t o : ndarray R) : result R :=
  (t' <- Np.expand_dims1 t ;;
   d <- Np.binop 0%R (fun a b => a - b)%R t' o ;;
   Ok (Pretrain.np_mean (Np.unop (fun v => v ^+ 2)%R d)))%res.

(** All the elements of a list are the same. *)
Definition identical (A : Type) (s : seq A) : Prop :=
  forall x y, List.In x s -> List.In y s -> x = y.

(** ** The driver on the small system *)

Module ToyRun.

Local Open Scope ring_scope.

(** A network with one determinant whose orbitals are all equal to the
    parameter. *)
Definition fermi_net_orbitals (p : rat) (y atoms : ndarray rat)
    (electrons : nat * nat) (envelope_type : string) (full_det : bool)
  : seq (ndarray rat) * unit :=
  ([:: NdArray [:: 1%N; 1%N; 1%N] [:: p]; NdArray [:: 1%N; 1%N; 1%N] [:: p]], tt).

Definition construct_input_features (x atoms : ndarray rat)
  : ndarray rat * ndarray rat * ndarray rat * ndarray rat := (x, x, x, x).

Definition exact_cusp_envelope (ae r_ee : ndarray rat) (p : rat)
    (charges : ndarray rat) (electrons : nat * nat) : ndarray rat :=
  Pretrain.py_float p.

Definition output_envelope (ae : ndarray rat) (p : rat) : ndarray rat :=
  Pretrain.py_float p.

(** The optimizer of the small system, whatever the learning rate. *)
Definition adam (learning_rate : rat) : Pretrain.optimizer rat nat := Toy.sgd.

(** One nucleus of charge 2 at the origin. *)
Definition molecule : seq (Pretrain.atom rat) :=
  [:: Pretrain.Atom [:: 0; 0; 0] 2%:R].

Definition pretrain_hartree_fock :=
  Pretrain.pretrain_hartree_fock Toy.exp id Toy.apply_updates Toy.mh_update
    Toy.grad (@Pretrain.pmean rat) fermi_net_orbitals construct_input_features
    exact_cusp_envelope output_envelope adam Toy.p_split.

Definition pretrain_loop :=
  Pretrain.pretrain_loop Toy.exp id Toy.apply_updates Toy.mh_update Toy.grad
    (@Pretrain.pmean rat) Toy.p_split Toy.batch_network (1%N, 1%N) (Toy.scf rat)
    Toy.batch_envelope_fn Toy.batch_orbitals Toy.sgd false.

(** Two devices without any walker. *)
Definition empty_state : Pretrain.loop_state rat rat nat nat :=
  Pretrain.LoopState (NdArray [:: 2%N; 0%N; 6%N] [::]) [:: 1; 1] [:: 0%N; 0%N]
    [:: 7%N; 8%N] (NdArray [:: 2%N; 0%N] [::]).

(** One configuration in which the first two of three electrons are at
    the same place, and one configuration of four electrons. *)
Definition coincident : ndarray int :=
  NdArray [:: 1%N; 9%N] [:: 1; 2; 3;  1; 2; 3;  7; 8; 9].

Definition four_electrons : ndarray int :=
  NdArray [:: 1%N; 12%N] [:: 1; 0; 0;  0; 1; 0;  0; 0; 1;  1; 1; 1].

End ToyRun.

(** ** Proof automation *)

(** Boolean comparisons on [nat] to the propositions [lia] and [nia] read. *)
Ltac to_prop :=
  repeat match goal with
  | H : is_true (leq (S _) _) |- _ => move/ltP in H
  | H : is_true (leq _ _) |- _ => move/leP in H
  | H : is_true (@eq_op _ _ _) |- _ => move/eqP in H
  | H : is_true (~~ leq _ _) |- _ => rewrite -ltnNge in H
  | H : leq _ _ = false |- _ => move/negbT in H
  end;
  try match goal with
  | |- is_true (leq (S _) _) => apply/ltP
  | |- is_true (leq _ _) => apply/leP
  | |- is_true (@eq_op _ _ _) => apply/eqP
  end;
  unfold addn, addn_rec, muln, muln_rec, subn, subn_rec in *.

Ltac ssr_lia := to_prop; lia.
Ltac ssr_nia := to_prop; nia.

(** Closes a goal [t = v], for [v] in normal form, or a true boolean, by
    evaluation. *)
Ltac by_vm :=
  match goal with
  | |- ?x = ?y => let v := eval vm_compute in y in vm_cast_no_check (@erefl _ v)
  | |- is_true ?b => vm_cast_no_check (@erefl bool true)
  end.

(** * Part II: properties *)

Lemma prodn_cat (s1 s2 : seq nat) : prodn (s1 ++ s2) = prodn s1 * prodn s2.
Proof. by elim: s1 => [|d s1 IH] /=; rewrite ?mul1n // IH mulnA. Qed.

Lemma prodn_eq0 (s : seq nat) : (prodn s == 0) = (0 \in s).
Proof.
elim: s => [|d s IH] //=.
by rewrite muln_eq0 IH in_cons eq_sym.
Qed.

Lemma offset_lt (i j r c : nat) : i < r -> j < c -> i * c + j < r * c.
Proof.
move=> Hi Hj; apply: (@leq_trans (i.+1 * c)); last by rewrite leq_mul2r Hi orbT.
by rewrite mulSn addnC ltn_add2r.
Qed.

(** ** Arithmetic of shapes and offsets *)

Section NpFacts.

Variable T : Type.
Variable t0 : T.
Implicit Types (s : seq T) (a b : ndarray T).

Lemma size_block n s k : (k.+1 * n <= size s)%N -> size (Np.block n s k) = n.
Proof.
move=> Hk; rewrite /Np.block size_take size_drop.
case: ltnP => // Hle.
move: Hk Hle; rewrite mulSn => Hk Hle; ssr_lia.
Qed.

Lemma nth_block n s k r : (r < n)%N -> nth t0 (Np.block n s k) r = nth t0 s (k * n + r).
Proof. by move=> Hr; rewrite /Np.block nth_take // nth_drop. Qed.

Lemma size_flatten_uniform n (f : nat -> seq T) st m :
  (forall i, (i < m)%N -> size (f (st + i)) = n) ->
  size (flatten [seq f i | i <- iota st m]) = (m * n)%N.
Proof.
elim: m st => [|m IH] st Hf //=.
rewrite size_cat mulSn; congr addn; first by rewrite -[st]addn0 Hf.
by apply: IH => i Hi; rewrite addSnnS; apply: Hf.
Qed.

Lemma nth_flatten_uniform n (f : nat -> seq T) st m k r :
  (forall i, (i < m)%N -> size (f (st + i)) = n) ->
  (k < m)%N -> (r < n)%N ->
  nth t0 (flatten [seq f i | i <- iota st m]) (k * n + r) = nth t0 (f (st + k)) r.
Proof.
elim: m st k => [|m IH] st k Hf //= Hk Hr.
have Hst : size (f st) = n by rewrite -[st]addn0 Hf.
rewrite nth_cat Hst.
case: k Hk => [|k] Hk; first by rewrite mul0n add0n Hr addn0.
rewrite mulSn -addnA ltnNge leq_addr /= addKn addnS -addSn.
by apply: IH => // i Hi; rewrite addSnnS; apply: Hf.
Qed.

End NpFacts.

(** ** Concatenation of equal-sized blocks *)

Section NpConcat.

Variable T : Type.
Variable t0 : T.

Lemma size_concat_blocks (da db : seq T) o ia ib :
  size da = (o * ia)%N -> size db = (o * ib)%N ->
  size (flatten [seq Np.block ia da i ++ Np.block ib db i | i <- iota 0 o])
  = (o * (ia + ib))%N.
Proof.
move=> Ha Hb; apply: size_flatten_uniform => i Hi.
rewrite add0n size_cat !size_block ?Ha ?Hb //; exact: leq_mul.
Qed.

Lemma nth_concat_blocks (da db : seq T) o ia ib k r :
  size da = (o * ia)%N -> size db = (o * ib)%N -> (k < o)%N -> (r < ia + ib)%N ->
  nth t0 (flatten [seq Np.block ia da i ++ Np.block ib db i | i <- iota 0 o])
    (k * (ia + ib) + r)
  = if (r < ia)%N then nth t0 da (k * ia + r) else nth t0 db (k * ib + (r - ia)).
Proof.
move=> Ha Hb Hk Hr.
have Hsz i : (i < o)%N -> size (Np.block ia da (0 + i) ++ Np.block ib db (0 + i)) = (ia + ib)%N.
  by move=> Hi; rewrite add0n size_cat !size_block ?Ha ?Hb //; exact: leq_mul.
rewrite (nth_flatten_uniform t0 Hsz) //.
rewrite add0n nth_cat size_block ?Ha; [by rewrite leq_mul|].
case: ltnP => Hlt; first by rewrite nth_block.
by rewrite nth_block //; ssr_lia.
Qed.

End NpConcat.

(** ** The target of full-determinant mode *)

Section FullDetTarget.

Variable R : realFieldType.

(** C1. In full-determinant mode, for targets [alpha] of shape
    [(ndet, na, na)] and [beta] of shape [(ndet, nb, nb)], the two nested
    concatenations of [loss_fn] succeed and build an array of shape
    [(ndet, na+nb, na+nb)] whose top-left [na] by [na] block is [alpha],
    whose bottom-right [nb] by [nb] block is [beta], and whose two
    off-diagonal blocks hold exactly zero. *)
Theorem full_det_target_block_diagonal (alpha beta : ndarray R) (ndet na nb : nat) :
  Np.shape alpha = [:: ndet; na; na] -> Np.wf alpha ->
  Np.shape beta = [:: ndet; nb; nb] -> Np.wf beta ->
  exists2 t, Pretrain.full_det_target [:: alpha; beta] = Ok t &
    [/\ Np.shape t = [:: ndet; na + nb; na + nb], Np.wf t &
      forall d i j, d < ndet -> i < na + nb -> j < na + nb ->
        Np.get 0%R t [:: d; i; j] =
          if (i < na) && (j < na) then Np.get 0%R alpha [:: d; i; j]
          else if (na <= i) && (na <= j) then Np.get 0%R beta [:: d; i - na; j - na]
          else Some 0%R].
Proof.
case: alpha beta => [sa da] [sb db] /= -> /eqP /= Hda -> /eqP /= Hdb.
rewrite /Pretrain.full_det_target /= /Np.shape_at /= /Np.concatenate /=.
rewrite /Np.same_off_axis /= !eqxx /= !muln1 in Hda Hdb *.
set top := flatten [seq Np.block na da k0 ++ _ | k0 <- _].
set bot := flatten [seq _ ++ Np.block nb db k0 | k0 <- _].
have Htop : size top = (ndet * (na * (na + nb)))%N.
  by rewrite /top (@size_concat_blocks _ _ _ (ndet * na)) -?mulnA ?size_nseq.
have Hbot : size bot = (ndet * (nb * (na + nb)))%N.
  by rewrite /bot (@size_concat_blocks _ _ _ (ndet * nb)) -?mulnA ?size_nseq.
rewrite !eqxx /=; eexists; first by [].
split=> //=.
  by rewrite /Np.wf /= muln1 (@size_concat_blocks _ _ _ ndet) // -mulnDl.
move=> d i j Hd Hi Hj.
rewrite /Np.get /= Hd Hi Hj mul0n add0n.
have -> : ((d * (na + nb) + i) * (na + nb) + j
           = d * (na * (na + nb) + nb * (na + nb)) + (i * (na + nb) + j))%N by ring.
rewrite (nth_concat_blocks _ Htop Hbot) //; first by rewrite -mulnDl offset_lt.
have [Hia|Hia] := ltnP i na.
- have -> : (i * (na + nb) + j < na * (na + nb))%N by rewrite offset_lt.
  have -> : (d * (na * (na + nb)) + (i * (na + nb) + j)
             = (d * na + i) * (na + nb) + j)%N by ring.
  rewrite (@nth_concat_blocks _ _ _ _ (ndet * na)) -?mulnA ?size_nseq ?offset_lt //.
  by case: ltnP => Hja //=; rewrite nth_nseq if_same.
- have -> : (i * (na + nb) + j < na * (na + nb))%N = false by apply/negbTE; rewrite -leqNgt; ssr_nia.
  have -> : (d * (nb * (na + nb)) + (i * (na + nb) + j - na * (na + nb))
             = (d * nb + (i - na)) * (na + nb) + j)%N.
    rewrite -{1}(subnK Hia) mulnDl -addnA [(na * _ + j)%N]addnC addnA addnK.
    by ring.
  have Hib : (i - na < nb)%N by ssr_lia.
  rewrite (@nth_concat_blocks _ _ _ _ (ndet * nb)) -?mulnA ?size_nseq ?offset_lt // Hib.
  case: ltnP => Hja /=; first by rewrite nth_nseq if_same.
  by have -> : (j - na < nb)%N by ssr_lia.
Qed.
End FullDetTarget.

(** ** Blocks of a flat buffer *)

Section Blocks.

Variable T : Type.
Variable t0 : T.

Lemma size_flatten2 n (F : nat -> nat -> seq T) nb st m :
  (forall b i, b < nb -> i < m -> size (F b (st + i)) = n) ->
  size (Np.flatten2 F nb st m) = nb * (m * n).
Proof.
move=> HF; apply: size_flatten_uniform => b Hb; rewrite add0n.
by apply: size_flatten_uniform => i Hi; apply: HF.
Qed.

Lemma nth_flatten2 n (F : nat -> nat -> seq T) nb st m b i j :
  (forall b i, b < nb -> i < m -> size (F b (st + i)) = n) ->
  b < nb -> i < m -> j < n ->
  nth t0 (Np.flatten2 F nb st m) ((b * m + i) * n + j) = nth t0 (F b (st + i)) j.
Proof.
move=> HF Hb Hi Hj.
have Hblk b' : b' < nb ->
    size (flatten [seq F (0 + b') i0 | i0 <- iota st m]) = m * n.
  by move=> Hb'; apply: size_flatten_uniform => k Hk; rewrite add0n; apply: HF.
have -> : (b * m + i) * n + j = b * (m * n) + (i * n + j) by ring.
rewrite /Np.flatten2 (nth_flatten_uniform t0 Hblk) ?offset_lt // add0n.
by rewrite (nth_flatten_uniform t0 (fun k Hk => HF b k Hb Hk)).
Qed.

Lemma block_flatten2 n (F : nat -> nat -> seq T) nb st m b i :
  (forall b i, b < nb -> i < m -> size (F b (st + i)) = n) ->
  b < nb -> i < m ->
  Np.block n (Np.flatten2 F nb st m) (b * m + i) = F b (st + i).
Proof.
move=> HF Hb Hi.
have Hsz : size (Np.block n (Np.flatten2 F nb st m) (b * m + i)) = n.
  rewrite size_block // (size_flatten2 HF) mulnA leq_mul2r; apply/orP; right.
  exact: offset_lt.
apply: (@eq_from_nth _ t0); first by rewrite Hsz HF.
by move=> j; rewrite Hsz => Hj; rewrite nth_block // (nth_flatten2 HF).
Qed.

End Blocks.


(** ** Indexing, reshaping and slicing *)

Section NpIndex.

Variable T : Type.
Variable t0 : T.

Lemma ravel_cat (sh1 sh2 idx1 idx2 : seq nat) acc :
  size idx1 = size sh1 ->
  Np.ravel (sh1 ++ sh2) (idx1 ++ idx2) acc
  = if Np.ravel sh1 idx1 acc is Some b then Np.ravel sh2 idx2 b else None.
Proof.
elim: sh1 idx1 acc => [|d sh1 IH] [|i idx1] acc //= [Hsz].
by case: ltnP => // _; apply: IH.
Qed.

Lemma ravel_size sh idx acc k : Np.ravel sh idx acc = Some k -> size idx = size sh.
Proof.
elim: sh idx acc => [|d sh IH] [|i idx] acc //=.
by case: ltnP => // _ /IH ->.
Qed.

Lemma ravel_lt sh idx acc k :
  Np.ravel sh idx acc = Some k -> k < acc.+1 * prodn sh.
Proof.
elim: sh idx acc => [|d sh IH] [|i idx] acc //=.
  by case=> <-; rewrite muln1.
case: ltnP => // Hi /IH Hk.
apply: (leq_trans Hk); rewrite mulnA leq_mul2r; apply/orP; right.
exact: offset_lt.
Qed.

Lemma reshape_infer_first (a : ndarray T) n k :
  prodn (Np.shape a) = n * k -> 0 < k ->
  Np.reshape a [:: None; Some k] = Ok (NdArray [:: n; k] (Np.data a)).
Proof.
move=> Hsz Hk; rewrite /Np.reshape /= Hsz muln1 modnMl eqxx orbF.
by rewrite eqn0Ngt Hk /= mulnK.
Qed.

Lemma reshape_infer_last (a : ndarray T) (lead : seq nat) m k :
  prodn (Np.shape a) = prodn lead * m * k -> 0 < prodn lead * m ->
  Np.reshape a ([seq Some d | d <- lead] ++ [:: Some m; None])
  = Ok (NdArray (lead ++ [:: m; k]) (Np.data a)).
Proof.
move=> Hsz Hpos; rewrite /Np.reshape.
have -> : count (fun d : option nat => ~~ d) ([seq Some d | d <- lead] ++ [:: Some m; None]) = 1.
  by rewrite count_cat count_map /= (@eq_count _ _ pred0) ?count_pred0.
have -> : Np.known_dims ([seq Some d | d <- lead] ++ [:: Some m; None]) = lead ++ [:: m].
  rewrite /Np.known_dims pmap_cat /=; congr cat.
  by elim: lead {Hsz Hpos} => //= d l ->.
rewrite prodn_cat /= muln1 Hsz modnMr eqxx orbF eqn0Ngt Hpos /= mulKn //.
by rewrite map_cat -map_comp /= map_id.
Qed.

Lemma slice_last2_cat (a : ndarray T) lead r c rs cs :
  Np.shape a = lead ++ [:: r; c] ->
  Np.slice_last2 a rs cs
  = Ok (NdArray (lead ++ [:: Np.slice_len rs r; Np.slice_len cs c])
          (Np.slice_data (Np.data a) (prodn lead) r c (Np.slice_lo rs r)
             (Np.slice_len rs r) (Np.slice_lo cs c) (Np.slice_len cs c))).
Proof.
move=> Hsh; rewrite /Np.slice_last2 Hsh size_cat /= addn2 /= subn2 /= subn1 /=.
by rewrite take_size_cat // !nth_cat ltnn ltnNge leqnSn /= subnn subSnn.
Qed.

Lemma slice_bounds (sl : Np.pyslice) dim :
  Np.slice_lo sl dim + Np.slice_len sl dim <= dim.
Proof.
rewrite /Np.slice_len /Np.slice_hi /Np.slice_lo.
case: (leqP (minn (odflt 0 (Np.start sl)) dim) (minn (odflt dim (Np.stop sl)) dim)) => H.
  by rewrite subnKC // geq_minr.
by rewrite (eqP (ltnW H : _ - _ == 0)) addn0 geq_minr.
Qed.

Lemma size_slice_row (s : seq T) c k clo clen :
  k.+1 * c <= size s -> clo + clen <= c ->
  size (take clen (drop clo (Np.block c s k))) = clen.
Proof.
move=> Hk Hc; rewrite size_take size_drop size_block //.
by case: ltnP => // H; ssr_lia.
Qed.

Lemma nth_slice_data (s : seq T) nb r c rlo rlen clo clen b i j :
  size s = nb * r * c -> rlo + rlen <= r -> clo + clen <= c ->
  b < nb -> i < rlen -> j < clen ->
  nth t0 (Np.slice_data s nb r c rlo rlen clo clen) ((b * rlen + i) * clen + j)
  = nth t0 s ((b * r + (rlo + i)) * c + (clo + j)).
Proof.
move=> Hs Hr Hc Hb Hi Hj.
have Hrow k : k < rlen -> forall b', b' < nb ->
    size (take clen (drop clo (Np.block c s (b' * r + (rlo + k))))) = clen.
  move=> Hk b' Hb'; apply: size_slice_row => //.
  rewrite Hs leq_mul2r; apply/orP; right.
  by apply: offset_lt => //; ssr_lia.
have Hblk b' : b' < nb ->
    size (flatten [seq take clen (drop clo (Np.block c s ((0 + b') * r + i0)))
                  | i0 <- iota rlo rlen]) = rlen * clen.
  by move=> Hb'; apply: size_flatten_uniform => k Hk; rewrite add0n; apply: Hrow.
have -> : (b * rlen + i) * clen + j = b * (rlen * clen) + (i * clen + j) by ring.
rewrite /Np.slice_data (nth_flatten_uniform t0 Hblk) ?offset_lt // add0n.
rewrite (nth_flatten_uniform t0 (fun k Hk => Hrow k Hk b Hb)) //.
by rewrite nth_take // nth_drop nth_block //; ssr_lia.
Qed.

Lemma get_slice_last2 (a a' : ndarray T) lead r c rs cs idx b i j :
  Np.shape a = lead ++ [:: r; c] -> Np.wf a ->
  Np.slice_last2 a rs cs = Ok a' ->
  Np.ravel lead idx 0 = Some b ->
  i < Np.slice_len rs r -> j < Np.slice_len cs c ->
  Np.get t0 a' (idx ++ [:: i; j])
  = Np.get t0 a (idx ++ [:: Np.slice_lo rs r + i; Np.slice_lo cs c + j])
  /\ Np.get t0 a' (idx ++ [:: i; j])
     = Some (nth t0 (Np.data a)
               ((b * r + (Np.slice_lo rs r + i)) * c + (Np.slice_lo cs c + j))).
Proof.
move=> Hsh /eqP Hwf; rewrite (slice_last2_cat _ _ Hsh) => -[<-] Hidx Hi Hj.
have Hb : b < prodn lead by have := ravel_lt Hidx; rewrite mul1n.
have Hri : Np.slice_lo rs r + i < r.
  by apply: leq_trans (slice_bounds rs r); rewrite ltn_add2l.
have Hcj : Np.slice_lo cs c + j < c.
  by apply: leq_trans (slice_bounds cs c); rewrite ltn_add2l.
have Hsz : size (Np.data a) = prodn lead * r * c.
  by rewrite Hwf Hsh prodn_cat /= muln1 mulnA.
rewrite /Np.get /= Hsh !ravel_cat ?(ravel_size Hidx) // Hidx /= Hi Hj Hri Hcj.
by rewrite nth_slice_data // ?slice_bounds.
Qed.

End NpIndex.

(** ** [eval_orbitals] on well-shaped positions *)

Section EvalOrbitals.

Variable R : realDomainType.
Import Reference.

(** X14. Let the positions have shape
    [lead ++ [nelec*3]] with no zero among the leading dimensions and at
    least one electron, and let [eval_mos] return two arrays of shape
    [(batch*nelec, nbasis)]. Then [eval_orbitals] calls [eval_mos] once, on
    the positions reshaped to [(batch*nelec, 3)], and returns [alpha], the
    first [n_up] rows and first [n_up] columns of the up-spin orbitals, and
    [beta], the rows from [n_up] on and the first [n_down] columns of the
    down-spin orbitals, both with the leading dimensions of the input. The
    column counts are [min n_up nbasis] and [min n_down nbasis], as a Python
    slice stops at the end of the axis: [(..., n_up, n_up)] and
    [(..., n_down, n_down)] as soon as there are that many orbitals. *)
Theorem eval_orbitals_occupied_blocks (scf_approx : scf R) (pos : pyobj R)
    (a up dn : ndarray R) (lead : seq nat) (n_up n_down nbasis : nat) :
  let nelec := n_up + n_down in
  let pts := NdArray [:: prodn lead * nelec; 3] (Np.data a) in
  let mo_up := NdArray (lead ++ [:: nelec; nbasis]) (Np.data up) in
  let mo_dn := NdArray (lead ++ [:: nelec; nbasis]) (Np.data dn) in
  array_of pos = Some a ->
  Np.shape a = rcons lead (nelec * 3) -> Np.wf a ->
  0 \notin lead -> 0 < nelec ->
  eval_mos scf_approx pts = [:: up; dn] ->
  Np.shape up = [:: prodn lead * nelec; nbasis] -> Np.wf up ->
  Np.shape dn = [:: prodn lead * nelec; nbasis] -> Np.wf dn ->
  exists alpha beta,
    [/\ eval_orbitals scf_approx pos (n_up, n_down) = ([:: pts], Ok (alpha, beta)),
        Np.shape alpha = lead ++ [:: n_up; minn n_up nbasis]
        /\ Np.shape beta = lead ++ [:: n_down; minn n_down nbasis],
        forall idx b i j,
          Np.ravel lead idx 0 = Some b -> i < n_up -> j < minn n_up nbasis ->
          Np.get 0%R alpha (idx ++ [:: i; j]) = Np.get 0%R mo_up (idx ++ [:: i; j])
          /\ Np.get 0%R alpha (idx ++ [:: i; j])
             = Some (nth 0%R (Np.data up) ((b * nelec + i) * nbasis + j))
      & forall idx b i j,
          Np.ravel lead idx 0 = Some b -> i < n_down -> j < minn n_down nbasis ->
          Np.get 0%R beta (idx ++ [:: i; j]) = Np.get 0%R mo_dn (idx ++ [:: n_up + i; j])
          /\ Np.get 0%R beta (idx ++ [:: i; j])
             = Some (nth 0%R (Np.data dn) ((b * nelec + (n_up + i)) * nbasis + j))].
Proof.
move=> nelec pts mo_up mo_dn Hpos Hsh Hwf Hlead Hne Hmos Hup Hwup Hdn Hwdn.
have Hb0 : 0 < prodn lead * nelec.
  by rewrite muln_gt0 Hne andbT lt0n prodn_eq0.
have Hsz : prodn (Np.shape a) = prodn lead * nelec * 3.
  by rewrite Hsh -cats1 prodn_cat /= muln1 mulnA.
have Hcopy : eval_orbitals scf_approx pos (n_up, n_down)
             = eval_orbitals scf_approx (PyNdarray a) (n_up, n_down).
  by case: pos Hpos => //= a0 [->].
rewrite Hcopy /eval_orbitals /= Hsh size_rcons /= -cats1 take_size_cat //.
rewrite (reshape_infer_first Hsz) //= -/pts Hmos /=.
rewrite !(@reshape_infer_last _ _ lead nelec nbasis) ?Hup ?Hdn /= ?muln1 //=.
have Hlen_up : Np.slice_len (Np.Slice None (Some n_up)) nelec = n_up.
  by rewrite /Np.slice_len /Np.slice_hi /Np.slice_lo /= min0n subn0; apply/minn_idPl/leq_addr.
have Hlen_dn : Np.slice_len (Np.Slice (Some n_up) None) nelec = n_down.
  rewrite /Np.slice_len /Np.slice_hi /Np.slice_lo /= minnn.
  by rewrite (minn_idPl (leq_addr _ _)) addKn.
have Hlo_dn : Np.slice_lo (Np.Slice (Some n_up) None) nelec = n_up.
  by rewrite /Np.slice_lo /=; apply/minn_idPl/leq_addr.
have Hcol n : Np.slice_len (Np.Slice None (Some n)) nbasis = minn n nbasis.
  by rewrite /Np.slice_len /Np.slice_hi /Np.slice_lo /= min0n subn0.
have Hcol0 n : Np.slice_lo (Np.Slice None (Some n)) nbasis = 0.
  by rewrite /Np.slice_lo /= min0n.
have Hrow0 : Np.slice_lo (Np.Slice None (Some n_up)) nelec = 0.
  by rewrite /Np.slice_lo /= min0n.
have Hwf_up : Np.wf mo_up.
  by rewrite /Np.wf /= (eqP Hwup) Hup prodn_cat /= !muln1 mulnA.
have Hwf_dn : Np.wf mo_dn.
  by rewrite /Np.wf /= (eqP Hwdn) Hdn prodn_cat /= !muln1 mulnA.
have Hsh_up : Np.shape mo_up = lead ++ [:: nelec; nbasis] by [].
have Hsh_dn : Np.shape mo_dn = lead ++ [:: nelec; nbasis] by [].
case Ea : (Np.slice_last2 mo_up _ _) (slice_last2_cat (Np.Slice None (Some n_up))
            (Np.Slice None (Some n_up)) Hsh_up) => [alpha|] // [Halpha].
case Eb : (Np.slice_last2 mo_dn _ _) (slice_last2_cat (Np.Slice (Some n_up) None)
            (Np.Slice None (Some n_down)) Hsh_dn) => [beta|] // [Hbeta].
exists alpha, beta; split=> //=.
- by rewrite Halpha Hbeta /= Hlen_up Hlen_dn !Hcol.
- move=> idx b i j Hidx Hi Hj.
  rewrite -Hlen_up in Hi; rewrite -Hcol in Hj.
  have := get_slice_last2 0%R Hsh_up Hwf_up Ea Hidx Hi Hj.
  by rewrite Hrow0 Hcol0 !add0n.
- move=> idx b i j Hidx Hi Hj.
  rewrite -Hlen_dn in Hi; rewrite -Hcol in Hj.
  have := get_slice_last2 0%R Hsh_dn Hwf_dn Eb Hidx Hi Hj.
  by rewrite Hlo_dn Hcol0 !add0n.
Qed.
End EvalOrbitals.

(** ** The signs [slogdet] returns *)

Section Signs.

Variable R : realDomainType.
Import Reference.
Local Open Scope ring_scope.

Variable ln : R -> R.

Lemma is_sign_sg (x : R) : is_sign (Num.sg x).
Proof. by rewrite /is_sign; case: sgrP; rewrite ?eqxx ?orbT. Qed.

Lemma is_sign_mul (x y : R) : is_sign x -> is_sign y -> is_sign (x * y).
Proof.
rewrite /is_sign.
move=> /or3P [] /eqP -> /or3P [] /eqP ->;
  by rewrite ?mulr0 ?mul0r ?mulr1 ?mul1r ?mulrNN ?mulr1 ?mulN1r ?opprK ?eqxx ?orbT.
Qed.

Lemma is_sign_nth (s : seq R) k : all is_sign s -> is_sign (nth 0 s k).
Proof.
move=> Hs; case: (ltnP k (size s)) => Hk; first exact: (all_nthP 0 Hs).
by rewrite nth_default // /is_sign eqxx orbT.
Qed.

Lemma slogdet_signs (a sa la : ndarray R) :
  slogdet ln a = Ok (sa, la) -> all is_sign (Np.data sa).
Proof.
rewrite /slogdet; case: ifP => // _; case: ifP => // _ [<- _] /=.
by rewrite all_map; apply/allP => b _ /=; apply: is_sign_sg.
Qed.

End Signs.

(** ** [eval_orbitals] and [eval_slater] on arrays *)

Section OnArrays.

Variable R : realDomainType.
Variable ln : R -> R.
Import Reference.
Local Open Scope ring_scope.

Lemma eval_orbitals_array (scf_approx : scf R) (pos : pyobj R) (a : ndarray R) spins :
  array_of pos = Some a ->
  eval_orbitals scf_approx pos spins = eval_orbitals scf_approx (PyNdarray a) spins.
Proof. by case: pos => //= a0 [->]. Qed.

Lemma eval_orbitals_explicit (scf_approx : scf R) (a up dn : ndarray R)
    (lead : seq nat) (n_up n_down nbasis : nat) :
  Np.shape a = rcons lead ((n_up + n_down) * 3)%N ->
  (0 < prodn lead * (n_up + n_down))%N ->
  eval_mos scf_approx (points lead (n_up + n_down) a) = [:: up; dn] ->
  Np.shape up = [:: (prodn lead * (n_up + n_down))%N; nbasis] ->
  Np.shape dn = [:: (prodn lead * (n_up + n_down))%N; nbasis] ->
  eval_orbitals scf_approx (PyNdarray a) (n_up, n_down)
  = ([:: points lead (n_up + n_down) a],
     Ok (occupied (Np.data up) lead (n_up + n_down) nbasis 0 n_up,
         occupied (Np.data dn) lead (n_up + n_down) nbasis n_up n_down)).
Proof.
set nelec := (n_up + n_down)%N => Hsh Hb0 Hmos Hup Hdn.
have Hsz : prodn (Np.shape a) = (prodn lead * nelec * 3)%N.
  by rewrite Hsh -cats1 prodn_cat /= muln1 mulnA.
rewrite /eval_orbitals /= Hsh size_rcons /= -cats1 take_size_cat //.
rewrite (reshape_infer_first Hsz) //= -/(points lead nelec a) Hmos /=.
rewrite !(@reshape_infer_last _ _ lead nelec nbasis) ?Hup ?Hdn /= ?muln1 //=.
rewrite !(@slice_last2_cat _ _ lead nelec nbasis) //= /occupied.
rewrite /Np.slice_len /Np.slice_hi /Np.slice_lo /= !min0n !subn0 minnn.
by rewrite !(minn_idPl (leq_addr _ _)) addKn.
Qed.

Lemma eval_orbitals_empty (scf_approx : scf R) (a mo : ndarray R)
    (mos : seq (ndarray R)) (lead : seq nat) (n_up n_down : nat) :
  Np.shape a = rcons lead ((n_up + n_down) * 3)%N ->
  (prodn lead * (n_up + n_down))%N = 0%N ->
  eval_mos scf_approx (points lead (n_up + n_down) a) = mo :: mos ->
  eval_orbitals scf_approx (PyNdarray a) (n_up, n_down)
  = ([:: points lead (n_up + n_down) a], Raise (ValueError "cannot reshape array")).
Proof.
set nelec := (n_up + n_down)%N => Hsh Hb0 Hmos.
have Hsz : prodn (Np.shape a) = (prodn lead * nelec * 3)%N.
  by rewrite Hsh -cats1 prodn_cat /= muln1 mulnA.
rewrite /eval_orbitals /= Hsh size_rcons /= -cats1 take_size_cat //.
rewrite (reshape_infer_first Hsz) //= -/(points lead nelec a) Hmos /=.
rewrite /Np.reshape.
have -> : count (fun d : option nat => ~~ d)
            ([seq Some d | d <- lead] ++ [:: Some nelec; None]) = 1%N.
  by rewrite count_cat count_map /= (@eq_count _ _ pred0) ?count_pred0.
have -> : Np.known_dims ([seq Some d | d <- lead] ++ [:: Some nelec; None])
          = lead ++ [:: nelec].
  rewrite /Np.known_dims pmap_cat /=; congr cat.
  by elim: (lead) => //= d l ->.
by rewrite prodn_cat /= muln1 Hb0 eqxx.
Qed.

Lemma exchange_lt (n i j e : nat) :
  (i < n)%N -> (j < n)%N -> (e < n)%N -> (exchange i j e < n)%N.
Proof. by move=> Hi Hj He; rewrite /exchange; case: eqP => // _; case: eqP. Qed.

Lemma leading_dims_rcons (a : ndarray R) (lead : seq nat) (d : nat) :
  Np.shape a = rcons lead d -> Np.leading_dims a = lead.
Proof. by move=> Hsh; rewrite /Np.leading_dims Hsh size_rcons /= -cats1 take_size_cat. Qed.

Section Swapped.

Variables (a : ndarray R) (lead : seq nat) (nelec i j : nat).
Hypothesis Hsh : Np.shape a = rcons lead (nelec * 3)%N.
Hypothesis Hwf : Np.wf a.
Hypothesis Hi : (i < nelec)%N.
Hypothesis Hj : (j < nelec)%N.

Local Notation a' := (swap_electrons nelec i j a).

Lemma size_positions : size (Np.data a) = (prodn lead * nelec * 3)%N.
Proof. by rewrite (eqP Hwf) Hsh -cats1 prodn_cat /= muln1 mulnA. Qed.

Lemma size_point (k : nat) :
  (k < prodn lead * nelec)%N -> size (Np.block 3 (Np.data a) k) = 3%N.
Proof. by move=> Hk; rewrite size_block // size_positions leq_mul2r Hk orbT. Qed.

Lemma swap_electrons_point (b e : nat) :
  (b < prodn lead)%N -> (e < nelec)%N ->
  Np.block 3 (Np.data a') (b * nelec + e)
  = Np.block 3 (Np.data a) (b * nelec + exchange i j e).
Proof.
move=> Hb He; rewrite /a' /swap_electrons /= (leading_dims_rcons Hsh).
rewrite -/(Np.flatten2 _ (prodn lead) 0 nelec) (@block_flatten2 _ 0 3) // => b' e' Hb' He'.
by rewrite add0n size_point // offset_lt // exchange_lt.
Qed.

End Swapped.

Lemma slogdet_occupied (s : seq R) (lead : seq nat) (nelec nbasis lo n : nat) :
  slogdet ln (occupied s lead nelec nbasis lo n)
  = if (n <= nbasis)%N then
      Ok (NdArray lead [seq Num.sg d | d <- occupied_dets s lead nelec nbasis lo n],
          NdArray lead [seq ln `|d| | d <- occupied_dets s lead nelec nbasis lo n])
    else Raise (LinAlgError "last 2 dimensions of the array must be square").
Proof.
rewrite /slogdet /occupied /= size_cat /= addn2 /= subn2 /= subn1 /=.
rewrite take_size_cat // !nth_cat ltnn ltnNge leqnSn /= subnn subSnn /=.
case: (leqP n nbasis) => Hn; first by rewrite eqxx.
by rewrite neq_ltn Hn orbT.
Qed.

Lemma eval_slaterE (scf_approx : scf R) (pos : pyobj R) spins calls alpha beta :
  eval_orbitals scf_approx pos spins = (calls, Ok (alpha, beta)) ->
  eval_slater ln scf_approx pos spins = (calls, slater_of ln alpha beta).
Proof.
move=> H; rewrite /eval_slater H /slater_of /= /lift /=.
case: (slogdet ln alpha) => [[sa la]|] //=; last by rewrite cats0.
case: (slogdet ln beta) => [[sb lb]|] //=; last by rewrite cats0.
case: (Np.binop 0 +%R la lb) => [l|] //=; last by rewrite cats0.
by case: (Np.binop 0 *%R sa sb) => [s0|] //=; rewrite cats0.
Qed.

Lemma eval_slater_array (scf_approx : scf R) (pos : pyobj R) (a : ndarray R) spins :
  array_of pos = Some a ->
  eval_slater ln scf_approx pos spins = eval_slater ln scf_approx (PyNdarray a) spins.
Proof. by move=> Hpos; rewrite /eval_slater (eval_orbitals_array _ _ Hpos). Qed.

Lemma array_of_swap (nelec i j : nat) (pos : pyobj R) (a : ndarray R) :
  array_of pos = Some a ->
  array_of (swap_pos nelec i j pos) = Some (swap_electrons nelec i j a).
Proof. by case: pos => //= a0 [->]. Qed.

End OnArrays.

(** ** Traversals *)

Section MapM.

Variables (A B : Type).

Lemma mapM_ext_in (f g : A -> result B) (xs : seq A) :
  (forall x, List.In x xs -> f x = g x) -> mapM f xs = mapM g xs.
Proof.
elim: xs => [|x xs IH] //= H.
have -> : f x = g x by apply: H; left.
by rewrite IH // => y Hy; apply: H; right.
Qed.

Lemma mapM_size (f : A -> result B) (xs : seq A) (ys : seq B) :
  mapM f xs = Ok ys -> size ys = size xs.
Proof.
elim: xs ys => [|x xs IH] ys /=; first by case=> <-.
case: (f x) => // y; case E: (mapM f xs) => [ys'|] // [<-] /=.
by rewrite (IH _ E).
Qed.

End MapM.

Lemma stack_const (R : Type) (X : Type) (y : ndarray R) (s : seq X) :
  Np.stack [seq y | _ <- s]
  = Ok (NdArray (size s :: (if s is _ :: _ then Np.shape y else [::]))
          (flatten [seq Np.data y | _ <- s])).
Proof.
rewrite /Np.stack size_map -map_comp.
have -> : all (fun x : ndarray R => Np.shape x
            == (if [seq y | _ <- s] is x0 :: _ then Np.shape x0 else [::]))
            [seq y | _ <- s].
  by case: s => [|x0 s] //=; rewrite eqxx /=; elim: s => //= _ s ->; rewrite eqxx.
by case: s.
Qed.

(** ** The envelope chosen by [pretrain_hartree_fock] *)

Section EnvelopeFacts.

Variable R : realFieldType.
Variable envelope_params : Type.
Variable construct_input_features :
  ndarray R -> ndarray R -> ndarray R * ndarray R * ndarray R * ndarray R.
Variable exact_cusp_envelope :
  ndarray R -> ndarray R -> envelope_params -> ndarray R -> nat * nat -> ndarray R.
Variable output_envelope : ndarray R -> envelope_params -> ndarray R.

Local Notation envelope_fn :=
  (Pretrain.envelope_fn construct_input_features exact_cusp_envelope output_envelope).

Local Open Scope ring_scope.

(** C7. For every envelope type other than ['exact_cusp'] and ['output'],
    the envelope function is the constant [0.0], whatever the parameters and
    the positions, and its batched form returns one zero per configuration. *)
Theorem envelope_fn_other (envelope_type : string) (atoms charges : ndarray R)
    (electrons : nat * nat) (p : envelope_params) (x : ndarray R) :
  envelope_type <> "exact_cusp"%string -> envelope_type <> "output"%string ->
  envelope_fn envelope_type atoms charges electrons p x = Pretrain.py_float 0
  /\ forall d sh, Np.shape x = d :: sh ->
       Pretrain.vmap (envelope_fn envelope_type atoms charges electrons) p x
       = Ok (NdArray [:: d] (nseq d 0)).
Proof.
move=> /String.eqb_neq H1 /String.eqb_neq H2.
rewrite /Pretrain.envelope_fn H1 H2; split=> // d sh Hsh.
rewrite /Pretrain.vmap /Np.unstack Hsh /= -map_comp.
rewrite (@stack_const _ _ (Pretrain.py_float 0)) size_iota /=.
congr (Ok (NdArray _ _)); first by case: (d).
by elim: (d) (0%N) => [|n IH] st //=; rewrite IH.
Qed.

End EnvelopeFacts.

(** ** One pretraining step on every worker *)

Section StepFacts.

Variable R : realFieldType.
Variable exp : R -> R.
Variables (params envelope_params opt_state prng_key : Type).
Variable get_envelope : params -> envelope_params.
Variable apply_updates : params -> params -> params.
Variable mh_update :
  params -> (params -> ndarray R -> ndarray R) -> ndarray R -> prng_key ->
  ndarray R -> R -> ndarray R * prng_key * ndarray R * R.
Variable grad : (params -> result R) -> params -> params.
Variable tree_pmean : seq params -> params.
Variable batch_envelope_fn : envelope_params -> ndarray R -> result (ndarray R).
Variable batch_orbitals : params -> ndarray R -> result (seq (ndarray R)).
Variable batch_network : params -> ndarray R -> ndarray R.
Variable opt : Pretrain.optimizer params opt_state.
Variable full_det : bool.

Local Notation replica := (Pretrain.replica R params opt_state prng_key).
Local Notation CallValueAndGrad := (@Pretrain.CallValueAndGrad R params opt_state prng_key).
Local Notation CallPmean := (@Pretrain.CallPmean R params opt_state prng_key).
Local Notation CallOptimizerUpdate := (@Pretrain.CallOptimizerUpdate R params opt_state prng_key).
Local Notation CallApplyUpdates := (@Pretrain.CallApplyUpdates R params opt_state prng_key).
Local Notation CallMhUpdate := (@Pretrain.CallMhUpdate R params opt_state prng_key).
Local Notation step_out := (Pretrain.step_out R params opt_state).
Local Notation loss_fn :=
  (Pretrain.loss_fn exp get_envelope batch_envelope_fn batch_orbitals full_det).
Local Notation contribution :=
  (Pretrain.contribution exp get_envelope batch_envelope_fn batch_orbitals full_det).
Local Notation loss_and_grad :=
  (Pretrain.loss_and_grad exp get_envelope grad batch_envelope_fn batch_orbitals full_det).
Local Notation local_directions :=
  (Pretrain.local_directions exp get_envelope grad batch_envelope_fn
     batch_orbitals full_det).
Local Notation replica_at := (@Pretrain.replica_at R params opt_state prng_key).
Local Notation pretrain_step :=
  (Pretrain.pretrain_step exp get_envelope apply_updates mh_update grad
     tree_pmean batch_envelope_fn batch_orbitals batch_network opt full_det).
Local Notation pmap_pretrain_step :=
  (Pretrain.pmap_pretrain_step exp get_envelope apply_updates mh_update grad
     tree_pmean batch_envelope_fn batch_orbitals batch_network opt full_det).

Local Open Scope ring_scope.

Lemma in_zip_iota (ws : seq replica) (k : nat) (r : replica) (st : nat) :
  List.In (k, r) (zip (iota st (size ws)) ws) ->
  [/\ (st <= k)%N, (k < st + size ws)%N, List.In r ws
     & forall r0, nth r0 ws (k - st) = r].
Proof.
elim: ws st => [|x ws IH] st //= [[<- <-]|/IH [H1 H2 H3 H4]].
  by rewrite subnn -addn1 leq_add2l; split=> //; left.
split; [exact: ltnW | by rewrite addnS -addSn | by right |].
by move=> r0; rewrite -(subnSK H1) /=; apply: H4.
Qed.

Lemma zip_iota_replica_at (ws : seq replica) (k : nat) (r : replica) :
  List.In (k, r) (zip (iota 0 (size ws)) ws) -> replica_at ws k r.
Proof. by move=> /in_zip_iota [_ H1 _ H2]; split=> // r0; rewrite -(H2 r0) subn0. Qed.

Lemma own_direction (ws : seq replica) (w : nat) (me : replica) lg :
  replica_at ws w me -> loss_and_grad ws w me = Ok lg ->
  mapM (fun v => if v.1 == w then Ok lg.2
                 else (lg' <- loss_and_grad ws v.1 v.2 ;; Ok lg'.2)%res)
    (zip (iota 0 (size ws)) ws)
  = local_directions ws.
Proof.
move=> [Hw Hme] Hlg; apply: mapM_ext_in => -[k r] /in_zip_iota [_ _ _ Hk] /=.
case: eqP => // E; move: (Hk me); rewrite subn0 E Hme => <-.
by rewrite Hlg.
Qed.

Lemma pretrain_stepE (ws : seq replica) (w : nat) (me : replica) :
  replica_at ws w me ->
  pretrain_step ws w me
  = let c1 := CallValueAndGrad (Pretrain.r_data me) (Pretrain.r_params me)
                (Pretrain.r_target me) in
    match loss_and_grad ws w me with
    | Raise e => ([:: c1], Raise e)
    | Ok lg =>
        match local_directions ws with
        | Raise e => ([:: c1; CallPmean lg.2], Raise e)
        | Ok ds =>
            let sd := tree_pmean ds in
            let us := Pretrain.update opt sd (Pretrain.r_state me) (Pretrain.r_params me) in
            let p := apply_updates (Pretrain.r_params me) us.1 in
            let r := mh_update p batch_network (Pretrain.r_data me)
                       (Pretrain.r_key me) (Pretrain.r_logprob me) 0 in
            ([:: c1; CallPmean lg.2;
                 CallOptimizerUpdate sd (Pretrain.r_state me) (Pretrain.r_params me);
                 CallApplyUpdates (Pretrain.r_params me) us.1;
                 CallMhUpdate p (Pretrain.r_data me) (Pretrain.r_key me)
                   (Pretrain.r_logprob me) 0],
             Ok (Pretrain.StepOut r.1.1.1 p us.2 lg.1 r.1.2))
        end
    end.
Proof.
move=> Hme; rewrite /Pretrain.pretrain_step /= /lift /=.
case Hlg : (loss_and_grad ws w me) => [lg|e] //=.
rewrite (own_direction Hme Hlg).
case: (local_directions ws) => [ds|e] //=.
by case: (mh_update _ _ _ _ _ _) => [[[d k] l] n].
Qed.

(** C2. Every pretraining step that returns performs, in this order: the
    evaluation of the loss and of its gradient, the average of the gradient
    over the workers, the optimizer update from the averaged gradient, the
    application of the updates, and exactly one call of [mh_update], made
    with the parameters after the update and [0] as its last argument. The
    step returns these parameters and the optimizer state of that update. *)
Theorem pretrain_step_order (ws : seq replica) (w : nat) (me : replica)
    (calls : seq (Pretrain.call R params opt_state prng_key)) (out : step_out) :
  replica_at ws w me ->
  pretrain_step ws w me = (calls, Ok out) ->
  exists loss_val g ds,
    let sd := tree_pmean ds in
    let us := Pretrain.update opt sd (Pretrain.r_state me) (Pretrain.r_params me) in
    [/\ loss_and_grad ws w me = Ok (loss_val, g) /\ local_directions ws = Ok ds,
        calls = [:: CallValueAndGrad (Pretrain.r_data me) (Pretrain.r_params me)
                      (Pretrain.r_target me);
                    CallPmean g;
                    CallOptimizerUpdate sd (Pretrain.r_state me) (Pretrain.r_params me);
                    CallApplyUpdates (Pretrain.r_params me) us.1;
                    CallMhUpdate (Pretrain.o_params out) (Pretrain.r_data me)
                      (Pretrain.r_key me) (Pretrain.r_logprob me) 0],
        Pretrain.o_params out = apply_updates (Pretrain.r_params me) us.1
        /\ Pretrain.o_state out = us.2
      & let r := mh_update (Pretrain.o_params out) batch_network (Pretrain.r_data me)
                   (Pretrain.r_key me) (Pretrain.r_logprob me) 0 in
        Pretrain.o_data out = r.1.1.1 /\ Pretrain.o_logprob out = r.1.2].
Proof.
move=> Hme; rewrite (pretrain_stepE Hme) /=.
case: (loss_and_grad ws w me) => [[loss_val g]|e] //=.
case: (local_directions ws) => [ds|e] //= [<- <-].
by exists loss_val, g, ds.
Qed.

Lemma mapM_In (A B : Type) (f : A -> result B) (xs : seq A) (ys : seq B) (y : B) :
  mapM f xs = Ok ys -> List.In y ys -> exists2 x, List.In x xs & f x = Ok y.
Proof.
elim: xs ys => [|x xs IH] ys /=; first by case=> <-.
case E : (f x) => [y0|] //; case E' : (mapM f xs) => [ys'|] // [<-] /= [<-|Hy].
  by exists x => //; left.
by have [x' Hx' Hf] := IH _ E' Hy; exists x' => //; right.
Qed.

(** C5. When all workers enter a step with the same parameters and the
    same optimizer state, all of them leave it with the same parameters: the
    update computed from the gradient averaged over the workers (in exact
    arithmetic), whatever the data of each worker. *)
Theorem pmap_params_identical (ws : seq replica) (outs : seq step_out)
    (p0 : params) (s0 : opt_state) :
  (forall r, List.In r ws -> Pretrain.r_params r = p0 /\ Pretrain.r_state r = s0) ->
  pmap_pretrain_step ws = Ok outs ->
  size outs = size ws
  /\ exists2 ds, local_directions ws = Ok ds
     & forall o, List.In o outs ->
         Pretrain.o_params o
         = apply_updates p0 (Pretrain.update opt (tree_pmean ds) s0 p0).1.
Proof.
move=> Hsame Hmap; split; first by rewrite (mapM_size Hmap) size_zip size_iota minnn.
case Hds : (local_directions ws) => [ds|e].
  exists ds => // o Ho.
  have [[k r] Hkr /=] := mapM_In Hmap Ho.
  have Hat := zip_iota_replica_at Hkr.
  have [_ _ Hr _] := in_zip_iota Hkr.
  rewrite (pretrain_stepE Hat) /= Hds.
  case: (loss_and_grad ws k r) => [lg|e] //= [<-] /=.
  by have [-> ->] := Hsame _ Hr.
case: ws Hsame Hmap Hds => [|r ws] Hsame; first by [].
rewrite /Pretrain.pmap_pretrain_step [zip _ _]/= [mapM _ _]/=.
have Hat : replica_at (r :: ws) 0 r by [].
rewrite (pretrain_stepE Hat) /= => Hmap Hds; move: Hmap; rewrite Hds.
by case: (loss_and_grad (r :: ws) 0 r).
Qed.

Lemma mapM_zip_snd (B : Type) (f : replica -> result B) (ws : seq replica) (st : nat) :
  mapM (fun v : nat * replica => f v.2) (zip (iota st (size ws)) ws) = mapM f ws.
Proof. by elim: ws st => [|r ws IH] st //=; rewrite IH. Qed.

Lemma loss_is_mean (ws : seq replica) (w : nat) (me : replica) (lg : R * params) :
  replica_at ws w me -> loss_and_grad ws w me = Ok lg ->
  exists n rs,
    [/\ Pretrain.target_width (Pretrain.r_target me) = Ok n,
        loss_fn ws w n (Pretrain.r_data me) (Pretrain.r_params me)
          (Pretrain.r_target me) = Ok lg.1,
        mapM contribution ws = Ok rs
      & lg.1 = Pretrain.pmean rs].
Proof.
move=> [Hw Hme]; rewrite /Pretrain.loss_and_grad.
case Hn : (Pretrain.target_width _) => [n|] //=.
rewrite /Pretrain.value_and_grad.
case Hl : (loss_fn ws w n _ _ _) => [v|] //= [<-] /=.
move: Hl; rewrite /Pretrain.loss_fn.
case Hr : (Pretrain.loss_result _ _ _ _ _ _ _ _ _) => [res|] //=.
have Heq : mapM (fun v : nat * replica => if v.1 == w then Ok res else contribution v.2)
            (zip (iota 0 (size ws)) ws) = mapM contribution ws.
  rewrite -(mapM_zip_snd contribution ws 0); apply: mapM_ext_in.
  move=> [k r] /in_zip_iota [_ _ _ Hk] /=; case: eqP => // E.
  move: (Hk me); rewrite subn0 E Hme => <-.
  by rewrite /Pretrain.contribution Hn /= Hr.
rewrite Heq; case Hrs : (mapM contribution ws) => [rs|] //= [<-].
by exists n, rs; split=> //; rewrite Hr /= Heq Hrs.
Qed.

Lemma map_zip_snd (A B C : Type) (f : B -> C) (s : seq A) (t : seq B) :
  size s = size t -> [seq f v.2 | v <- zip s t] = [seq f y | y <- t].
Proof. by elim: s t => [|x s IH] [|y t] //= [/IH ->]. Qed.

Lemma map_zip_fst (A B C : Type) (f : A -> C) (s : seq A) (t : seq B) :
  size s = size t -> [seq f v.1 | v <- zip s t] = [seq f x | x <- s].
Proof. by elim: s t => [|x s IH] [|y t] //= [/IH ->]. Qed.

Lemma shard_params (data logprob : ndarray R) (target : ndarray R * ndarray R)
    (ps : seq params) (ss : seq opt_state) (keys : seq prng_key) (ws : seq replica) :
  Pretrain.shard data target ps ss keys logprob = Ok ws ->
  [seq Pretrain.r_params r | r <- ws] = ps.
Proof.
rewrite /Pretrain.shard.
case: (Np.unstack data) => [ds|] //=; case: (Np.unstack target.1) => [ta|] //=.
case: (Np.unstack target.2) => [tb|] //=; case: (Np.unstack logprob) => [lps|] //=.
case: ifP => // /and5P [/eqP H1 /eqP H2 /eqP H3 /eqP H4 /andP [/eqP H5 /eqP H6]] [<-].
have S4 : size ps = size (zip ss (zip keys lps)).
  by rewrite !size_zip H3 H4 H5 H6 !minnn.
have S3 : size tb = size (zip ps (zip ss (zip keys lps))).
  by rewrite size_zip -S4 H3 H2 minnn.
have S2 : size ta = size (zip tb (zip ps (zip ss (zip keys lps)))).
  by rewrite size_zip -S3 H2 H1 minnn.
have S1 : size ds = size (zip ta (zip tb (zip ps (zip ss (zip keys lps))))).
  by rewrite size_zip -S2 H1 minnn.
rewrite -map_comp.
rewrite (@map_zip_snd _ _ _ (fun z : _ * (_ * (params * _)) => z.2.2.1) _ _ S1).
rewrite (@map_zip_snd _ _ _ (fun z : _ * (params * _) => z.2.1) _ _ S2).
rewrite (@map_zip_snd _ _ _ (fun z : params * _ => z.1) _ _ S3).
by rewrite (@map_zip_fst _ _ _ id _ _ S4) map_id.
Qed.

Variable p_split : seq prng_key -> seq prng_key * seq prng_key.
Variable electrons : nat * nat.
Variable scf_approx : Reference.scf R.

Local Notation pretrain_iteration :=
  (Pretrain.pretrain_iteration exp get_envelope apply_updates mh_update grad
     tree_pmean p_split batch_network electrons scf_approx batch_envelope_fn
     batch_orbitals opt full_det).

Lemma pmap_losses (ws : seq replica) (outs : seq step_out) (rs : seq R) :
  pmap_pretrain_step ws = Ok outs -> mapM contribution ws = Ok rs ->
  forall o, List.In o outs -> Pretrain.o_loss o = Pretrain.pmean rs.
Proof.
move=> Hmap Hrs o Ho.
have [[k r] Hkr /=] := mapM_In Hmap Ho.
have Hat := zip_iota_replica_at Hkr.
rewrite (pretrain_stepE Hat) /=.
case Hlg : (loss_and_grad ws k r) => [lg|e] //=.
have [n [rs' [_ _ Hrs' ->]]] := loss_is_mean Hat Hlg.
move: Hrs'; rewrite Hrs => -[<-].
by case: (local_directions ws) => [ds|e] //= [<-].
Qed.

(** C9. The loss logged for iteration [t] is the loss returned by the
    step of that iteration: the mean over the workers of the loss of the
    parameters and walkers with which the iteration started, not of the
    parameters the step returns. *)
Theorem logged_loss_is_pre_update (t : nat)
    (st st' : Pretrain.loop_state R params opt_state prng_key)
    (log : seq (nat * R)) :
  pretrain_iteration t st = (log, Ok st') ->
  exists target ws outs rs,
    [/\ (Reference.eval_orbitals scf_approx
           (Reference.PyJaxArray (Pretrain.ls_data st)) electrons).2 = Ok target,
        Pretrain.shard (Pretrain.ls_data st) target (Pretrain.ls_params st)
          (Pretrain.ls_opt_state st) (p_split (Pretrain.ls_key st)).2
          (Pretrain.ls_logprob st) = Ok ws
        /\ [seq Pretrain.r_params r | r <- ws] = Pretrain.ls_params st,
        pmap_pretrain_step ws = Ok outs
        /\ Pretrain.ls_params st' = [seq Pretrain.o_params o | o <- outs],
        mapM contribution ws = Ok rs
        /\ forall o, List.In o outs -> Pretrain.o_loss o = Pretrain.pmean rs
      & log = [:: (t, Pretrain.pmean rs)]].
Proof.
rewrite /Pretrain.pretrain_iteration /= /lift /=.
case Ht : (Reference.eval_orbitals _ _ _).2 => [target|] //=.
case Hsp : (p_split _) => [sharded_key subkeys] /=.
case Hws : (Pretrain.shard _ _ _ _ _ _) => [ws|] //=.
case Hout : (pmap_pretrain_step ws) => [outs|] //=.
case: (Np.stack _) => [data|] //=; case: (Np.stack _) => [logprob|] //=.
case Hl0 : (list_get _ 0) => [loss0|] //= [<- <-] /=.
exists target, ws, outs.
case: outs Hout Hl0 => [|o0 outs] Hout //= [Hl0].
case: ws Hws Hout => [|w0 ws] Hws Hout //.
have Hat : replica_at (w0 :: ws) 0 w0 by [].
have Hout' := Hout.
rewrite /Pretrain.pmap_pretrain_step [zip _ _]/= [mapM _ _]/= in Hout'.
rewrite (pretrain_stepE Hat) /= in Hout'.
case Hlg : (loss_and_grad (w0 :: ws) 0 w0) Hout' => [lg|] //= Hout'.
have [n [rs [Hn Hloss Hrs Hmean]]] := loss_is_mean Hat Hlg.
exists rs; split=> //; first by split=> //; exact: (shard_params Hws).
  by split=> //; exact: pmap_losses Hout Hrs.
by rewrite -Hl0 (@pmap_losses _ _ _ Hout Hrs o0) //; left.
Qed.

End StepFacts.

(** ** The check of the type of the positions *)

Section InputCheck.

Variable R : realDomainType.
Import Reference.

Lemma reshape_raises (a : ndarray R) (ns : Np.newshape) (e : exn) :
  Np.reshape a ns = Raise e -> is_input_type_error e = false.
Proof.
rewrite /Np.reshape; case: (count _ _) => [|[|n]]; last by case=> <-.
  by case: ifP => // _ [<-].
by case: ifP => // _ [<-].
Qed.

Lemma mapM_raises (A B : Type) (f : A -> result B) (xs : seq A) (e : exn) :
  mapM f xs = Raise e -> exists x, f x = Raise e.
Proof.
elim: xs => [|x xs IH] //=.
case E : (f x) => [y|e']; last by case=> <-; exists x.
by case: (mapM f xs) IH => [ys|e'] // IH [He]; apply: IH; rewrite He.
Qed.

Lemma list_get_raises (A : Type) (xs : seq A) (k : nat) (e : exn) :
  list_get xs k = Raise e -> is_input_type_error e = false.
Proof. by rewrite /list_get; case: (drop k xs) => // -[<-]. Qed.

Lemma slice_last2_raises (a : ndarray R) (rs cs : Np.pyslice) (e : exn) :
  Np.slice_last2 a rs cs = Raise e -> is_input_type_error e = false.
Proof. by rewrite /Np.slice_last2; case: ifP => // _ [<-]. Qed.

Lemma eval_orbitals_array_error (scf_approx : scf R) (a : ndarray R)
    (spins : nat * nat) (e : exn) :
  (eval_orbitals scf_approx (PyNdarray a) spins).2 = Raise e ->
  is_input_type_error e = false.
Proof.
rewrite /eval_orbitals /= /lift /=.
case E1 : (Np.reshape a _) => [pts|e1] /=; last by case=> <-; apply: reshape_raises E1.
case E2 : (mapM _ _) => [mos|e2] /=.
  case E3 : (list_get mos 0) => [m0|e3] /=; last by case=> <-; apply: list_get_raises E3.
  case E4 : (Np.slice_last2 m0 _ _) => [al|e4] /=;
    last by case=> <-; apply: slice_last2_raises E4.
  case E5 : (list_get mos 1) => [m1|e5] /=; last by case=> <-; apply: list_get_raises E5.
  by case E6 : (Np.slice_last2 m1 _ _) => [be|e6] //= [<-]; apply: slice_last2_raises E6.
by case=> <-; have [x Hx] := mapM_raises E2; apply: reshape_raises Hx.
Qed.

(** X15. A value that is not a NumPy
    array and has no [copy] attribute makes [eval_orbitals] raise
    [ValueError('Input must be either NumPy or JAX array.')] before any
    orbital is evaluated; a NumPy or a JAX array never raises it. *)
Theorem eval_orbitals_input_check (scf_approx : scf R) (pos : pyobj R)
    (spins : nat * nat) :
  (~~ isinstance_ndarray pos && no_copy_attribute pos ->
   eval_orbitals scf_approx pos spins = ([::], Raise input_type_error))
  /\ (forall a, array_of pos = Some a ->
      (eval_orbitals scf_approx pos spins).2 <> Raise input_type_error).
Proof.
split; first by case: pos.
move=> a Ha; rewrite (eval_orbitals_array _ _ Ha) => H.
by have := eval_orbitals_array_error H.
Qed.

End InputCheck.

(** ** Element-wise operations on arrays of one shape *)

Section Broadcast.

Variable T : Type.
Variable t0 : T.

Lemma prodn_rev (s : seq nat) : prodn (rev s) = prodn s.
Proof.
elim: s => [|d s IH] //=.
by rewrite rev_cons -cats1 prodn_cat IH /= muln1 mulnC.
Qed.

Lemma bshape_same (r : seq nat) : Np.bshape r r = Some r.
Proof. by elim: r => [|d r IH] //=; rewrite eqxx /= IH. Qed.

Lemma boffset_same (r : seq nat) (t : nat) : t < prodn r -> Np.boffset r r t = t.
Proof.
elim: r t => [|d r IH] t /=; first by rewrite ltnS leqn0 => /eqP ->.
case: d => [|d] Ht; first by rewrite mul0n in Ht.
have -> : (if d.+1 == 1 then 0 else t %% d.+1) = t %% d.+1.
  by case: eqP => // ->; rewrite modn1.
rewrite IH; first by rewrite ltn_divLR // mulnC.
by rewrite addnC mulnC -divn_eq.
Qed.

Lemma binop_same_shape (f : T -> T -> T) (a b : ndarray T) (sh : seq nat) :
  Np.shape a = sh -> Np.shape b = sh ->
  Np.binop t0 f a b
  = Ok (NdArray sh [seq f (nth t0 (Np.data a) t) (nth t0 (Np.data b) t)
                   | t <- iota 0 (prodn sh)]).
Proof.
move=> Ha Hb; rewrite /Np.binop Ha Hb bshape_same revK prodn_rev.
congr (Ok (NdArray _ _)); apply/eq_in_map => t; rewrite mem_iota add0n => /andP [_ Ht].
by rewrite !boffset_same ?prodn_rev.
Qed.

End Broadcast.

(** ** Sign and logarithm returned by [eval_slater] *)

Section SlaterShapes.

Variable R : realDomainType.
Variable ln : R -> R.
Import Reference.
Local Open Scope ring_scope.

Lemma reshape_last_shape (a a' : ndarray R) (lead : seq nat) (m : nat) :
  Np.reshape a ([seq Some d | d <- lead] ++ [:: Some m; None]) = Ok a' ->
  exists k, Np.shape a' = lead ++ [:: m; k].
Proof.
rewrite /Np.reshape.
have -> : count (fun d : option nat => ~~ d)
            ([seq Some d | d <- lead] ++ [:: Some m; None]) = 1%N.
  by rewrite count_cat count_map /= (@eq_count _ _ pred0) ?count_pred0.
case: ifP => // _ [<-] /=; eexists.
by rewrite map_cat -map_comp /= map_id.
Qed.

Lemma list_get_In (A : Type) (xs : seq A) (k : nat) (x : A) :
  list_get xs k = Ok x -> List.In x xs.
Proof.
rewrite /list_get; elim: xs k => [|y xs IH] [|k] //=; first by case=> ->; left.
by move=> H; right; apply: IH H.
Qed.

Lemma eval_orbitals_shapes (scf_approx : scf R) (pos : pyobj R)
    (spins : nat * nat) (calls : seq (ndarray R)) (alpha beta : ndarray R) :
  eval_orbitals scf_approx pos spins = (calls, Ok (alpha, beta)) ->
  exists lead ra ca rb cb,
    Np.shape alpha = lead ++ [:: ra; ca] /\ Np.shape beta = lead ++ [:: rb; cb].
Proof.
have Harr a : eval_orbitals scf_approx (PyNdarray a) spins = (calls, Ok (alpha, beta)) ->
    exists lead ra ca rb cb,
      Np.shape alpha = lead ++ [:: ra; ca] /\ Np.shape beta = lead ++ [:: rb; cb].
  rewrite /eval_orbitals /= /lift /=.
  set lead := take _ _.
  case E1 : (Np.reshape a _) => [pts|e1] //=.
  case E2 : (mapM _ _) => [mos|e2] //=.
  case E3 : (list_get mos 0) => [m0|e3] //=.
  case E4 : (Np.slice_last2 m0 _ _) => [al|e4] //=.
  case E5 : (list_get mos 1) => [m1|e5] //=.
  case E6 : (Np.slice_last2 m1 _ _) => [be|e6] //= [_ Hal Hbe].
  have [x0 _ /reshape_last_shape [k0 Hk0]] := mapM_In E2 (list_get_In E3).
  have [x1 _ /reshape_last_shape [k1 Hk1]] := mapM_In E2 (list_get_In E5).
  move: E4 E6; rewrite (slice_last2_cat _ _ Hk0) (slice_last2_cat _ _ Hk1).
  rewrite -Hal -Hbe => -[<-] [<-] /=.
  by exists lead; do 4!eexists.
case: pos => [a|a|l|x|] //=; first exact: Harr.
by move=> H; apply: (Harr a); rewrite -H.
Qed.

Lemma slogdet_shape (a s l : ndarray R) (lead : seq nat) (r c : nat) :
  Np.shape a = lead ++ [:: r; c] -> slogdet ln a = Ok (s, l) ->
  Np.shape s = lead /\ Np.shape l = lead.
Proof.
move=> Hsh; rewrite /slogdet Hsh size_cat /= addn2 /= subn2 /= take_size_cat //.
by case: ifP => // _ [<- <-].
Qed.

(** C4. Whenever [eval_slater] returns, the sign is the element-wise
    product of the signs of the two spin channels, the logarithm is the
    element-wise sum of their logarithms of the absolute value, both have
    one entry per configuration, and every sign is [-1], [0] or [1]. *)
Theorem eval_slater_sign_log (scf_approx : scf R) (pos : pyobj R)
    (spins : nat * nat) (calls : seq (ndarray R)) (sign logabs : ndarray R) :
  eval_slater ln scf_approx pos spins = (calls, Ok (sign, logabs)) ->
  exists alpha beta sign_alpha log_alpha sign_beta log_beta,
    [/\ eval_orbitals scf_approx pos spins = (calls, Ok (alpha, beta)),
        slogdet ln alpha = Ok (sign_alpha, log_alpha)
        /\ slogdet ln beta = Ok (sign_beta, log_beta),
        Np.binop 0 *%R sign_alpha sign_beta = Ok sign
        /\ Np.binop 0 +%R log_alpha log_beta = Ok logabs,
        [/\ Np.shape sign = Np.shape sign_alpha,
            Np.shape logabs = Np.shape sign_alpha
          & forall b, (b < prodn (Np.shape sign_alpha))%N ->
              nth 0 (Np.data sign) b
              = nth 0 (Np.data sign_alpha) b * nth 0 (Np.data sign_beta) b
              /\ nth 0 (Np.data logabs) b
                 = nth 0 (Np.data log_alpha) b + nth 0 (Np.data log_beta) b]
      & all is_sign (Np.data sign)].
Proof.
rewrite /eval_slater.
case Eo : (eval_orbitals _ _ _) => [tr0 [[alpha beta]|e]] //=.
have [lead [ra [ca [rb [cb [Hal Hbe]]]]]] := eval_orbitals_shapes Eo.
rewrite /lift /=.
case Ea : (slogdet ln alpha) => [[sa la]|] //=.
case Eb : (slogdet ln beta) => [[sb lb]|] //=.
have [Hsa Hla] := slogdet_shape Hal Ea.
have [Hsb Hlb] := slogdet_shape Hbe Eb.
rewrite (binop_same_shape 0 +%R Hla Hlb) (binop_same_shape 0 *%R Hsa Hsb) /=.
rewrite !cats0 => -[<- <- <-].
exists alpha, beta, sa, la, sb, lb; split=> //.
- by rewrite (binop_same_shape 0 +%R Hla Hlb) (binop_same_shape 0 *%R Hsa Hsb).
- rewrite /= Hsa; split=> // b Hb.
  by rewrite !(nth_map 0%N) ?size_iota // nth_iota.
- rewrite /=; apply/(all_nthP 0) => t; rewrite size_map size_iota => Ht.
  rewrite (nth_map 0%N) ?size_iota // nth_iota // add0n.
  by apply: is_sign_mul; apply: is_sign_nth; [apply: slogdet_signs Ea | apply: slogdet_signs Eb].
Qed.

End SlaterShapes.

(** ** Default arguments of [pretrain_hartree_fock] *)

Section DriverDefaults.

Variable R : realFieldType.
Variable exp : R -> R.
Variables (params envelope_params opt_state prng_key aux : Type).
Variable get_envelope : params -> envelope_params.
Variable apply_updates : params -> params -> params.
Variable mh_update :
  params -> (params -> ndarray R -> ndarray R) -> ndarray R -> prng_key ->
  ndarray R -> R -> ndarray R * prng_key * ndarray R * R.
Variable grad : (params -> result R) -> params -> params.
Variable tree_pmean : seq params -> params.
Variable fermi_net_orbitals :
  params -> ndarray R -> ndarray R -> nat * nat -> string -> bool ->
  seq (ndarray R) * aux.
Variable construct_input_features :
  ndarray R -> ndarray R -> ndarray R * ndarray R * ndarray R * ndarray R.
Variable exact_cusp_envelope :
  ndarray R -> ndarray R -> envelope_params -> ndarray R -> nat * nat -> ndarray R.
Variable output_envelope : ndarray R -> envelope_params -> ndarray R.
Variable adam : R -> Pretrain.optimizer params opt_state.
Variable p_split : seq prng_key -> seq prng_key * seq prng_key.

Local Notation envelope_fn :=
  (Pretrain.envelope_fn construct_input_features exact_cusp_envelope output_envelope).
Local Notation pretrain_hartree_fock :=
  (Pretrain.pretrain_hartree_fock exp get_envelope apply_updates mh_update grad
     tree_pmean fermi_net_orbitals construct_input_features exact_cusp_envelope
     output_envelope adam p_split).

Local Open Scope ring_scope.

(** C10. The default of [envelope_type] is ['full'], which is neither
    ['exact_cusp'] nor ['output']: a call that leaves [envelope_type] out
    pretrains with the constant-zero envelope function. *)
Theorem default_envelope_is_zero :
  [/\ Pretrain.default_envelope_type = "full"%string,
      String.eqb Pretrain.default_envelope_type "exact_cusp" = false
      /\ String.eqb Pretrain.default_envelope_type "output" = false,
      forall atoms charges electrons p x,
        envelope_fn Pretrain.default_envelope_type atoms charges electrons p x
        = Pretrain.py_float 0
    & forall ps data batch_network sharded_key molecule electrons scf_approx
             full_det iterations,
        pretrain_hartree_fock ps data batch_network sharded_key molecule
          electrons scf_approx None full_det iterations
        = pretrain_hartree_fock ps data batch_network sharded_key molecule
            electrons scf_approx (Some Pretrain.default_envelope_type)
            full_det iterations].
Proof. by split. Qed.

End DriverDefaults.

(** ** The model run on the small system *)

Section ToySystem.

Local Open Scope ring_scope.

(** The orbitals of the small system are evaluated electron by electron. *)
Lemma toy_pointwise (R : realDomainType) :
  Reference.pointwise (Toy.scf R) 3 (@Toy.orbitals R) (@Toy.orbitals R).
Proof. by split. Qed.

(** Worker [0] of the two-worker system. *)
Lemma toy_replica_at :
  Pretrain.replica_at [:: Toy.replica0; Toy.replica1] 0 Toy.replica0.
Proof. by split. Qed.

(** C1 on a one-determinant target with one up and two down electrons. *)
Lemma full_det_target_block_diagonal_witness :
  let alpha := NdArray [:: 1; 1; 1]%N [:: 2%:R : rat] in
  let beta := NdArray [:: 1; 2; 2]%N [:: 1; 2%:R; 3%:R; 4%:R : rat] in
  [/\ Np.shape alpha = [:: 1; 1; 1]%N, Np.wf alpha,
      Np.shape beta = [:: 1; 2; 2]%N, Np.wf beta
    & exists2 t, Pretrain.full_det_target [:: alpha; beta] = Ok t
      & Np.shape t = [:: 1; 3; 3]%N /\ Np.get 0 t [:: 0; 0; 1]%N = Some 0].
Proof.
move=> alpha beta.
have Ha : Np.shape alpha = [:: 1; 1; 1]%N by [].
have Hb : Np.shape beta = [:: 1; 2; 2]%N by [].
have Hwa : Np.wf alpha by [].
have Hwb : Np.wf beta by [].
split=> //.
have [t Ht [Hsh _ Hget]] := full_det_target_block_diagonal Ha Hwa Hb Hwb.
by exists t => //; split; [exact: Hsh | exact: (Hget 0 0 1)%N].
Defined.

(** X14 on two walkers of two up electrons and one down electron. *)
Lemma eval_orbitals_occupied_blocks_witness :
  let pts := NdArray [:: 6; 3]%N (Np.data Toy.walkers) in
  let up := Reference.orbitals_at 3 (@Toy.orbitals int) pts in
  [/\ Reference.array_of (Reference.PyJaxArray Toy.walkers) = Some Toy.walkers,
      Np.shape Toy.walkers = rcons [:: 2%N] ((2 + 1) * 3)%N /\ Np.wf Toy.walkers,
      Reference.eval_mos (Toy.scf int) pts = [:: up; up],
      Np.shape up = [:: 6; 3]%N /\ Np.wf up
    & exists alpha beta,
        [/\ Reference.eval_orbitals (Toy.scf int) (Reference.PyJaxArray Toy.walkers)
              (2%N, 1%N) = ([:: pts], Ok (alpha, beta)),
            Np.shape alpha = [:: 2; 2; 2]%N
          & Np.shape beta = [:: 2; 1; 1]%N]].
Proof.
move=> pts up.
have Hpos : Reference.array_of (Reference.PyJaxArray Toy.walkers) = Some Toy.walkers by [].
have Hsh : Np.shape Toy.walkers = rcons [:: 2%N] ((2 + 1) * 3)%N by [].
have Hwf : Np.wf Toy.walkers by [].
have Hlead : 0%N \notin [:: 2%N] by [].
have Hne : (0 < 2 + 1)%N by [].
have Hmos : Reference.eval_mos (Toy.scf int)
              (NdArray [:: (prodn [:: 2%N] * (2 + 1))%N; 3%N] (Np.data Toy.walkers))
            = [:: up; up] by [].
have Hup : Np.shape up = [:: (prodn [:: 2%N] * (2 + 1))%N; 3%N] by [].
have Hwup : Np.wf up by by_vm.
split=> //.
have [alpha [beta [H1 [H2 H3] _ _]]] :=
  eval_orbitals_occupied_blocks Hpos Hsh Hwf Hlead Hne Hmos Hup Hwup Hup Hwup.
by exists alpha, beta.
Defined.

(** C3. On an empty batch [eval_orbitals] does not return: with positions
    of shape [(0, 6)] and one electron of each spin, the reshape of the
    orbitals to [(0, 2, -1)] raises a [ValueError] after the call of
    [eval_mos], as the unknown dimension cannot be inferred from a product of
    zero. *)
Lemma eval_orbitals_empty_batch_raises :
  Reference.eval_orbitals (Toy.scf int)
    (Reference.PyNdarray (NdArray [:: 0; 6]%N [::])) (1%N, 1%N)
  = ([:: NdArray [:: 0; 3]%N [::]], Raise (ValueError "cannot reshape array")).
Proof. by []. Qed.

(** C8. A list is not rejected as the other values that are no arrays: it
    is neither a NumPy nor a JAX array, but it has a [copy] method, so the
    check lets it through and the read of [shape] raises an
    [AttributeError], not the [ValueError] of the check. *)
Lemma eval_orbitals_list_attribute_error :
  let pos := Reference.PyList [:: 0; 0; 0 : int] in
  [/\ Reference.isinstance_ndarray pos = false,
      Reference.array_of pos = None,
      Reference.eval_orbitals (Toy.scf int) pos (1%N, 0%N)
      = ([::], Raise (AttributeError "'list' object has no attribute 'shape'"))
    & Reference.is_input_type_error
        (AttributeError "'list' object has no attribute 'shape'") = false].
Proof. by []. Qed.

(** C2 on worker [0] of the two-worker system. *)
Lemma pretrain_step_order_witness :
  exists calls out,
    [/\ Pretrain.replica_at [:: Toy.replica0; Toy.replica1] 0 Toy.replica0,
        Toy.pretrain_step [:: Toy.replica0; Toy.replica1] 0 Toy.replica0
        = (calls, Ok out),
        size calls = 5%N
      & nth (Pretrain.CallPmean 0) calls 4
        = Pretrain.CallMhUpdate (Pretrain.o_params out)
            (Pretrain.r_data Toy.replica0) (Pretrain.r_key Toy.replica0)
            (Pretrain.r_logprob Toy.replica0) 0].
Proof.
let v := eval vm_compute in
  (Toy.pretrain_step [:: Toy.replica0; Toy.replica1] 0 Toy.replica0) in
match v with
| (?c, Ok ?o) =>
    have Hstep : Toy.pretrain_step [:: Toy.replica0; Toy.replica1] 0 Toy.replica0
                 = (c, Ok o) by vm_cast_no_check (@erefl _ v)
end.
have Hstep' := Hstep; rewrite /Toy.pretrain_step in Hstep'.
have [loss_val [g [ds /= [_ Hcalls _ _]]]] := pretrain_step_order toy_replica_at Hstep'.
do 2!eexists; split; [exact: toy_replica_at | exact: Hstep | | ];
  by rewrite Hcalls.
Defined.

(** C4 on the two walkers. *)
Lemma eval_slater_sign_log_witness :
  exists calls sign logabs,
    Reference.eval_slater id (Toy.scf int) (Reference.PyJaxArray Toy.walkers)
      (2%N, 1%N) = (calls, Ok (sign, logabs))
    /\ all Reference.is_sign (Np.data sign).
Proof.
let v := eval vm_compute in
  (Reference.eval_slater id (Toy.scf int) (Reference.PyJaxArray Toy.walkers)
     (2%N, 1%N)) in
match v with
| (?c, Ok (?s, ?l)) =>
    have Hs : Reference.eval_slater id (Toy.scf int)
                (Reference.PyJaxArray Toy.walkers) (2%N, 1%N) = (c, Ok (s, l))
      by vm_cast_no_check (@erefl _ v)
end.
have [alpha [beta [sa [la [sb [lb [_ _ _ _ Hsign]]]]]]] := eval_slater_sign_log Hs.
by do 3!eexists; split; [exact: Hs | exact: Hsign].
Defined.

(** C5 on the two-worker system, whose workers compute different
    gradients. *)
Lemma pmap_params_identical_witness :
  exists outs g0 g1,
    [/\ forall r, List.In r [:: Toy.replica0; Toy.replica1] ->
          Pretrain.r_params r = 1 /\ Pretrain.r_state r = 0%N,
        Toy.pmap_pretrain_step [:: Toy.replica0; Toy.replica1] = Ok outs,
        Pretrain.local_directions Toy.exp id Toy.grad Toy.batch_envelope_fn
          Toy.batch_orbitals false [:: Toy.replica0; Toy.replica1]
        = Ok [:: g0; g1] /\ g0 != g1
      & forall o1 o2, List.In o1 outs -> List.In o2 outs ->
          Pretrain.o_params o1 = Pretrain.o_params o2].
Proof.
let v := eval vm_compute in (Toy.pmap_pretrain_step [:: Toy.replica0; Toy.replica1]) in
match v with
| Ok ?o =>
    have Hmap : Toy.pmap_pretrain_step [:: Toy.replica0; Toy.replica1] = Ok o
      by vm_cast_no_check (@erefl _ v)
end.
let v := eval vm_compute in
  (Pretrain.local_directions Toy.exp id Toy.grad Toy.batch_envelope_fn
     Toy.batch_orbitals false [:: Toy.replica0; Toy.replica1]) in
match v with
| Ok [:: ?a; ?b] =>
    have Hdir : Pretrain.local_directions Toy.exp id Toy.grad Toy.batch_envelope_fn
                  Toy.batch_orbitals false [:: Toy.replica0; Toy.replica1]
                = Ok [:: a; b] by vm_cast_no_check (@erefl _ v)
end.
have Hneq : forall a b, Pretrain.local_directions Toy.exp id Toy.grad
    Toy.batch_envelope_fn Toy.batch_orbitals false [:: Toy.replica0; Toy.replica1]
    = Ok [:: a; b] -> a != b.
  by move=> a b; rewrite Hdir => -[<- <-]; vm_cast_no_check (@erefl bool true).
have Hsame : forall r, List.In r [:: Toy.replica0; Toy.replica1] ->
    Pretrain.r_params r = 1 /\ Pretrain.r_state r = 0%N.
  move=> r; rewrite /List.In.
    case=> [<-|]; first by split.
    case=> [<-|]; first by split.
    by case.
have Hmap' := Hmap; rewrite /Toy.pmap_pretrain_step in Hmap'.
have [_ [ds _ Hout]] := pmap_params_identical Hsame Hmap'.
do 3!eexists; split; [exact: Hsame | exact: Hmap | split; [exact: Hdir | exact: (Hneq _ _ Hdir)] |].
by move=> o1 o2 /Hout -> /Hout ->.
Defined.

(** C7 at the envelope type ['full']. *)
Lemma envelope_fn_other_witness :
  let features := fun x _ : ndarray rat => (x, x, x, x) in
  let cusp := fun (ae _ : ndarray rat) (_ : rat) (_ : ndarray rat) (_ : nat * nat) => ae in
  let output := fun (ae : ndarray rat) (_ : rat) => ae in
  [/\ "full"%string <> "exact_cusp"%string, "full"%string <> "output"%string
    & Pretrain.envelope_fn features cusp output "full" (NdArray [:: 0%N; 3%N] [::])
        (NdArray [:: 0%N] [::]) (1%N, 1%N) 1 (NdArray [:: 6%N] [:: 3%:R; 0; 0; 2%:R; 0; 0])
      = Pretrain.py_float 0].
Proof.
move=> features cusp output.
have H1 : "full"%string <> "exact_cusp"%string by [].
have H2 : "full"%string <> "output"%string by [].
split; [exact: H1 | exact: H2 |].
exact: (proj1 (envelope_fn_other features cusp output (NdArray [:: 0%N; 3%N] [::])
                 (NdArray [:: 0%N] [::]) (1%N, 1%N) 1
                 (NdArray [:: 6%N] [:: 3%:R; 0; 0; 2%:R; 0; 0]) H1 H2)).
Defined.

(** X15 at a Python float. *)
Lemma eval_orbitals_input_check_witness :
  ~~ Reference.isinstance_ndarray (Reference.PyFloat (1 : int))
  && Reference.no_copy_attribute (Reference.PyFloat (1 : int))
  /\ Reference.eval_orbitals (Toy.scf int) (Reference.PyFloat 1) (1%N, 1%N)
     = ([::], Raise Reference.input_type_error).
Proof.
have H : ~~ Reference.isinstance_ndarray (Reference.PyFloat (1 : int))
         && Reference.no_copy_attribute (Reference.PyFloat (1 : int)) by [].
split; first exact: H.
exact: (proj1 (eval_orbitals_input_check (Toy.scf int) (Reference.PyFloat 1) (1%N, 1%N)) H).
Defined.

(** C9 on the first iteration of the two-worker system. *)
Lemma logged_loss_is_pre_update_witness :
  exists log st',
    Toy.pretrain_iteration 0 Toy.st0 = (log, Ok st')
    /\ exists ws rs,
         [/\ [seq Pretrain.r_params r | r <- ws] = Pretrain.ls_params Toy.st0,
             mapM (@Pretrain.contribution _ Toy.exp _ _ id nat nat Toy.batch_envelope_fn
                     Toy.batch_orbitals false) ws = Ok rs
           & log = [:: (0%N, Pretrain.pmean rs)]].
Proof.
let v := eval vm_compute in (Toy.pretrain_iteration 0 Toy.st0) in
match v with
| (?l, Ok ?s) =>
    have Hit : Toy.pretrain_iteration 0 Toy.st0 = (l, Ok s)
      by vm_cast_no_check (@erefl _ v)
end.
have Hit' := Hit; rewrite /Toy.pretrain_iteration in Hit'.
have [target [ws [outs [rs [_ [_ Hps] _ [Hrs _] Hlog]]]]] :=
  logged_loss_is_pre_update Hit'.
do 2!eexists; split; first exact: Hit.
by exists ws, rs; split; [exact: Hps | exact: Hrs | exact: Hlog].
Defined.

End ToySystem.

(** * Part III: further properties *)

(** ** What [eval_slater] returns, and when *)

Section SlaterValues.

Variable R : realDomainType.
Variable ln : R -> R.
Import Reference.
Local Open Scope ring_scope.

Lemma eval_slater_nonsquare (scf_approx : scf R) (pos : pyobj R)
    (a up dn : ndarray R) (lead : seq nat) (n_up n_down nbasis : nat) :
  let nelec := (n_up + n_down)%N in
  array_of pos = Some a ->
  Np.shape a = rcons lead (nelec * 3)%N ->
  (0 < prodn lead * nelec)%N ->
  eval_mos scf_approx (points lead nelec a) = [:: up; dn] ->
  Np.shape up = [:: (prodn lead * nelec)%N; nbasis] ->
  Np.shape dn = [:: (prodn lead * nelec)%N; nbasis] ->
  (nbasis < n_up)%N || (nbasis < n_down)%N ->
  exists msg,
    eval_slater ln scf_approx pos (n_up, n_down)
    = ([:: points lead nelec a], Raise (LinAlgError msg)).
Proof.
move=> nelec Hpos Hsh Hpos0 Hmos Hsu Hsd Hfew.
rewrite (eval_slater_array ln _ _ Hpos).
rewrite (eval_slaterE ln (eval_orbitals_explicit Hsh Hpos0 Hmos Hsu Hsd)).
rewrite /slater_of !slogdet_occupied.
case: (leqP n_up nbasis) Hfew => [_ /= Hlt|_ _] /=; last by eexists.
by rewrite leqNgt Hlt /=; eexists.
Qed.

(** With at least as many orbitals as electrons of either spin both
    matrices are square: the results of [slogdet] on them are combined entry
    by entry. *)
Lemma eval_slater_square (scf_approx : scf R) (pos : pyobj R)
    (a up dn : ndarray R) (lead : seq nat) (n_up n_down nbasis : nat) :
  let nelec := (n_up + n_down)%N in
  let alpha := occupied (Np.data up) lead nelec nbasis 0 n_up in
  let beta := occupied (Np.data dn) lead nelec nbasis n_up n_down in
  array_of pos = Some a ->
  Np.shape a = rcons lead (nelec * 3)%N ->
  (0 < prodn lead * nelec)%N ->
  eval_mos scf_approx (points lead nelec a) = [:: up; dn] ->
  Np.shape up = [:: (prodn lead * nelec)%N; nbasis] ->
  Np.shape dn = [:: (prodn lead * nelec)%N; nbasis] ->
  (n_up <= nbasis)%N -> (n_down <= nbasis)%N ->
  exists sa la sb lb,
    [/\ eval_orbitals scf_approx pos (n_up, n_down)
        = ([:: points lead nelec a], Ok (alpha, beta)),
        slogdet ln alpha = Ok (sa, la) /\ slogdet ln beta = Ok (sb, lb),
        [/\ Np.shape sa = lead, Np.shape la = lead, Np.shape sb = lead,
            Np.shape lb = lead & all is_sign (Np.data sa) /\ all is_sign (Np.data sb)]
      & eval_slater ln scf_approx pos (n_up, n_down)
        = ([:: points lead nelec a],
           Ok (NdArray lead [seq nth 0 (Np.data sa) t * nth 0 (Np.data sb) t
                            | t <- iota 0 (prodn lead)],
               NdArray lead [seq nth 0 (Np.data la) t + nth 0 (Np.data lb) t
                            | t <- iota 0 (prodn lead)]))].
Proof.
move=> nelec alpha beta Hpos Hsh Hpos0 Hmos Hsu Hsd Hnu Hnd.
have Horb := eval_orbitals_explicit Hsh Hpos0 Hmos Hsu Hsd.
have Ha := slogdet_occupied ln (Np.data up) lead nelec nbasis 0 n_up.
have Hb := slogdet_occupied ln (Np.data dn) lead nelec nbasis n_up n_down.
rewrite Hnu in Ha; rewrite Hnd in Hb.
exists (NdArray lead [seq Num.sg d
                     | d <- occupied_dets (Np.data up) lead nelec nbasis 0 n_up]),
       (NdArray lead [seq ln `|d|
                     | d <- occupied_dets (Np.data up) lead nelec nbasis 0 n_up]),
       (NdArray lead [seq Num.sg d
                     | d <- occupied_dets (Np.data dn) lead nelec nbasis n_up n_down]),
       (NdArray lead [seq ln `|d|
                     | d <- occupied_dets (Np.data dn) lead nelec nbasis n_up n_down]).
split.
- by rewrite (eval_orbitals_array _ _ Hpos).
- by split.
- by split=> //; split; apply/allP => x /mapP [d _ ->]; apply: is_sign_sg.
rewrite (eval_slater_array ln _ _ Hpos) (eval_slaterE ln Horb) /slater_of Ha Hb /=.
by rewrite (@binop_same_shape _ 0 +%R _ _ lead) // (@binop_same_shape _ 0 *%R _ _ lead).
Qed.

(** X1. On a batch that is not empty, with at least as many orbitals as
    electrons of either spin, [eval_slater] returns, after one call of
    [eval_mos]: one sign, which is [-1], [0] or [1], and one logarithm per
    configuration, in arrays that have the leading dimensions of the
    positions. *)
Theorem eval_slater_returns (scf_approx : scf R) (pos : pyobj R)
    (a up dn : ndarray R) (lead : seq nat) (n_up n_down nbasis : nat) :
  let nelec := (n_up + n_down)%N in
  array_of pos = Some a ->
  Np.shape a = rcons lead (nelec * 3)%N ->
  0%N \notin lead -> (0 < nelec)%N ->
  eval_mos scf_approx (points lead nelec a) = [:: up; dn] ->
  Np.shape up = [:: (prodn lead * nelec)%N; nbasis] ->
  Np.shape dn = [:: (prodn lead * nelec)%N; nbasis] ->
  (n_up <= nbasis)%N -> (n_down <= nbasis)%N ->
  exists sign logabs,
    [/\ eval_slater ln scf_approx pos (n_up, n_down)
        = ([:: points lead nelec a], Ok (sign, logabs)),
        Np.shape sign = lead /\ Np.wf sign,
        Np.shape logabs = lead /\ Np.wf logabs
      & all is_sign (Np.data sign)].
Proof.
move=> nelec Hpos Hsh Hlead Hne Hmos Hsu Hsd Hnu Hnd.
have Hpos0 : (0 < prodn lead * nelec)%N.
  by rewrite muln_gt0 Hne andbT lt0n prodn_eq0.
have [sa [la [sb [lb [_ _ [_ _ _ _ [Hsa Hsb]] ->]]]]] :=
  eval_slater_square Hpos Hsh Hpos0 Hmos Hsu Hsd Hnu Hnd.
do 2!eexists; split; first by [].
- by split=> //; rewrite /Np.wf /= size_map size_iota.
- by split=> //; rewrite /Np.wf /= size_map size_iota.
apply/allP => x /mapP [t _ ->].
by apply: is_sign_mul; apply: is_sign_nth.
Qed.

(** X3. With fewer orbitals than electrons of one spin, the matrix of that
    spin is not square and [eval_slater] raises a [LinAlgError], after the
    call of [eval_mos]. *)
Theorem eval_slater_too_few_orbitals (scf_approx : scf R) (pos : pyobj R)
    (a up dn : ndarray R) (lead : seq nat) (n_up n_down nbasis : nat) :
  let nelec := (n_up + n_down)%N in
  array_of pos = Some a ->
  Np.shape a = rcons lead (nelec * 3)%N ->
  0%N \notin lead ->
  eval_mos scf_approx (points lead nelec a) = [:: up; dn] ->
  Np.shape up = [:: (prodn lead * nelec)%N; nbasis] ->
  Np.shape dn = [:: (prodn lead * nelec)%N; nbasis] ->
  (nbasis < n_up)%N || (nbasis < n_down)%N ->
  exists msg,
    eval_slater ln scf_approx pos (n_up, n_down)
    = ([:: points lead nelec a], Raise (LinAlgError msg)).
Proof.
move=> nelec Hpos Hsh Hlead Hmos Hsu Hsd Hfew.
apply: (eval_slater_nonsquare Hpos Hsh _ Hmos Hsu Hsd Hfew).
rewrite muln_gt0 lt0n prodn_eq0 Hlead /= /nelec.
by case/orP: Hfew => H; [apply: leq_trans (leq_addr _ _) | apply: leq_trans (leq_addl _ _)];
  apply: leq_ltn_trans H.
Qed.

(** X4. With no spin-down electron the spin-down matrix has no entry, and
    [slogdet] gives an empty matrix the sign 1 and the logarithm of 1: the
    sign [eval_slater] returns is the sign [slogdet] gives the spin-up
    matrix, and its logarithm that of the spin-up matrix plus [log 1]. *)
Theorem eval_slater_spin_polarised (scf_approx : scf R) (pos : pyobj R)
    (a up dn : ndarray R) (lead : seq nat) (n_up nbasis : nat) :
  array_of pos = Some a ->
  Np.shape a = rcons lead (n_up * 3)%N ->
  0%N \notin lead -> (0 < n_up)%N ->
  eval_mos scf_approx (points lead n_up a) = [:: up; dn] ->
  Np.shape up = [:: (prodn lead * n_up)%N; nbasis] ->
  Np.shape dn = [:: (prodn lead * n_up)%N; nbasis] ->
  (n_up <= nbasis)%N ->
  exists alpha beta sign_alpha log_alpha,
    [/\ eval_orbitals scf_approx pos (n_up, 0%N)
        = ([:: points lead n_up a], Ok (alpha, beta)),
        Np.shape beta = lead ++ [:: 0%N; 0%N],
        slogdet ln alpha = Ok (sign_alpha, log_alpha)
      & eval_slater ln scf_approx pos (n_up, 0%N)
        = ([:: points lead n_up a],
           Ok (sign_alpha,
               NdArray lead [seq x + ln 1 | x <- Np.data log_alpha]))].
Proof.
move=> Hpos Hsh Hlead Hne Hmos Hsu Hsd Hnu.
have Hpos0 : (0 < prodn lead * n_up)%N.
  by rewrite muln_gt0 Hne andbT lt0n prodn_eq0.
have H := @eval_slater_square scf_approx pos a up dn lead n_up 0 nbasis.
cbv zeta in H; rewrite addn0 in H.
have [sa [la [sb [lb [Horb [Ha Hb] _ ->]]]]] :=
  H Hpos Hsh Hpos0 Hmos Hsu Hsd Hnu (leq0n _).
exists (occupied (Np.data up) lead n_up nbasis 0 n_up),
       (occupied (Np.data dn) lead n_up nbasis n_up 0), sa, la.
split=> //; first by rewrite /= min0n.
move: Ha Hb; rewrite !slogdet_occupied Hnu leq0n => -[<- <-] [<- <-] /=.
have Hsz : size (occupied_dets (Np.data up) lead n_up nbasis 0 n_up) = prodn lead.
  by rewrite /occupied_dets size_map size_iota.
congr (_, Ok (NdArray _ _, NdArray _ _)).
  apply: (@eq_from_nth _ 0); rewrite !size_map size_iota ?Hsz // => t Ht.
  rewrite (nth_map 0%N) ?size_iota // nth_iota // add0n.
  rewrite [X in _ * X](nth_map 0) ?size_map ?size_iota //.
  by rewrite (nth_map 0%N) ?size_iota //= sgr1 mulr1.
apply: (@eq_from_nth _ 0); rewrite !size_map size_iota ?Hsz // => t Ht.
rewrite (nth_map 0%N) ?size_iota // nth_iota // add0n.
rewrite [X in _ + X](nth_map 0) ?size_map ?size_iota //.
rewrite (nth_map 0%N) ?size_iota //= normr1.
by rewrite [RHS](nth_map 0) // size_map Hsz.
Qed.

End SlaterValues.

(** ** The matrices [eval_orbitals] returns for a point-by-point [eval_mos] *)

Section OrbitalMatrices.

Variable R : realDomainType.
Import Reference.
Local Open Scope ring_scope.

Lemma get_occupied (s : seq R) (lead : seq nat) (nelec nbasis lo n : nat)
    (idx : seq nat) (b r c : nat) :
  size s = (prodn lead * nelec * nbasis)%N -> (lo + n <= nelec)%N ->
  Np.ravel lead idx 0 = Some b -> (r < n)%N -> (c < minn n nbasis)%N ->
  Np.get 0 (occupied s lead nelec nbasis lo n) (idx ++ [:: r; c])
  = Some (nth 0 s ((b * nelec + (lo + r)) * nbasis + c)).
Proof.
move=> Hs Hlo Hidx Hr Hc.
have Hb : (b < prodn lead)%N by have := ravel_lt Hidx; rewrite mul1n.
rewrite /Np.get /= ravel_cat ?(ravel_size Hidx) // Hidx /= Hr Hc.
by rewrite nth_slice_data // add0n geq_minr.
Qed.

(** The orbital values at the electrons of one configuration: entry
    [(r, c)] of a returned matrix is orbital [c] at the position of the
    electron of its row. *)
Lemma eval_orbitals_entries (scf_approx : scf R) (nbasis : nat)
    (phi_up phi_dn : seq R -> seq R) (a : ndarray R) (lead : seq nat)
    (n_up n_down : nat) :
  let nelec := (n_up + n_down)%N in
  pointwise scf_approx nbasis phi_up phi_dn ->
  Np.shape a = rcons lead (nelec * 3)%N ->
  (0 < prodn lead * nelec)%N ->
  exists alpha beta,
    [/\ eval_orbitals scf_approx (PyNdarray a) (n_up, n_down)
        = ([:: points lead nelec a], Ok (alpha, beta)),
        forall idx b r c,
          Np.ravel lead idx 0 = Some b -> (r < n_up)%N -> (c < minn n_up nbasis)%N ->
          Np.get 0 alpha (idx ++ [:: r; c])
          = Some (nth 0 (phi_up (Np.block 3 (Np.data a) (b * nelec + r))) c)
      & forall idx b r c,
          Np.ravel lead idx 0 = Some b -> (r < n_down)%N ->
          (c < minn n_down nbasis)%N ->
          Np.get 0 beta (idx ++ [:: r; c])
          = Some (nth 0 (phi_dn (Np.block 3 (Np.data a) (b * nelec + (n_up + r)))) c)].
Proof.
move=> nelec [Hup Hdn Hmos] Hsh Hpos0.
set pts := points lead nelec a.
have Hpts : Np.shape pts = [:: (prodn lead * nelec)%N; 3%N] by [].
have Hshape phi : Np.shape (orbitals_at nbasis phi pts)
                  = [:: (prodn lead * nelec)%N; nbasis] by [].
have Hsize phi : (forall p, size (phi p) = nbasis) ->
    size (Np.data (orbitals_at nbasis phi pts)) = (prodn lead * nelec * nbasis)%N.
  by move=> Hphi; rewrite /= (@size_flatten_uniform _ nbasis).
have Hentry phi b e c : (forall p, size (phi p) = nbasis) ->
    (b < prodn lead)%N -> (e < nelec)%N -> (c < nbasis)%N ->
    nth 0 (Np.data (orbitals_at nbasis phi pts)) ((b * nelec + e) * nbasis + c)
    = nth 0 (phi (Np.block 3 (Np.data a) (b * nelec + e))) c.
  move=> Hphi Hb He Hc /=.
  by rewrite (@nth_flatten_uniform _ 0 nbasis) ?add0n //; apply: offset_lt.
do 2!eexists; split.
- exact: (eval_orbitals_explicit Hsh Hpos0 (Hmos _ _ Hpts) (Hshape _) (Hshape _)).
- move=> idx b r c Hidx Hr Hc.
  have Hb : (b < prodn lead)%N by have := ravel_lt Hidx; rewrite mul1n.
  rewrite (get_occupied (Hsize _ Hup) _ Hidx Hr Hc) ?add0n ?leq_addr //.
  rewrite Hentry //; first by apply: leq_trans Hr (leq_addr _ _).
  by apply: leq_trans Hc (geq_minr _ _).
move=> idx b r c Hidx Hr Hc.
have Hb : (b < prodn lead)%N by have := ravel_lt Hidx; rewrite mul1n.
rewrite (get_occupied (Hsize _ Hdn) _ Hidx Hr Hc) //.
rewrite Hentry //; first by rewrite ltn_add2l.
by apply: leq_trans Hc (geq_minr _ _).
Qed.

(** X2. When [eval_mos] evaluates the orbitals electron by electron, the
    matrices [eval_orbitals] returns are the Slater matrices of the two
    spins: for every configuration, entry [(r, c)] of the spin-up matrix is
    the value of spin-up orbital [c] at the position of electron [r], and
    entry [(r, c)] of the spin-down matrix the value of spin-down orbital
    [c] at the position of electron [n_up + r]. *)
Theorem eval_orbitals_pointwise (scf_approx : scf R) (nbasis : nat)
    (phi_up phi_dn : seq R -> seq R) (pos : pyobj R) (a : ndarray R)
    (lead : seq nat) (n_up n_down : nat) :
  let nelec := (n_up + n_down)%N in
  pointwise scf_approx nbasis phi_up phi_dn ->
  array_of pos = Some a ->
  Np.shape a = rcons lead (nelec * 3)%N ->
  0%N \notin lead -> (0 < nelec)%N ->
  exists alpha beta,
    [/\ eval_orbitals scf_approx pos (n_up, n_down)
        = ([:: points lead nelec a], Ok (alpha, beta)),
        forall idx b r c,
          Np.ravel lead idx 0 = Some b -> (r < n_up)%N -> (c < minn n_up nbasis)%N ->
          Np.get 0 alpha (idx ++ [:: r; c])
          = Some (nth 0 (phi_up (Np.block 3 (Np.data a) (b * nelec + r))) c)
      & forall idx b r c,
          Np.ravel lead idx 0 = Some b -> (r < n_down)%N ->
          (c < minn n_down nbasis)%N ->
          Np.get 0 beta (idx ++ [:: r; c])
          = Some (nth 0 (phi_dn (Np.block 3 (Np.data a) (b * nelec + (n_up + r)))) c)].
Proof.
move=> nelec Hpw Hpos Hsh Hlead Hne.
have Hpos0 : (0 < prodn lead * nelec)%N.
  by rewrite muln_gt0 Hne andbT lt0n prodn_eq0.
rewrite (eval_orbitals_array _ _ Hpos).
exact: (eval_orbitals_entries Hpw Hsh Hpos0).
Qed.

(** X5. Two electrons of the same spin at the same position, in some
    configuration, give the matrix of that spin two equal rows for that
    configuration. *)
Theorem eval_orbitals_coincident (scf_approx : scf R) (nbasis : nat)
    (phi_up phi_dn : seq R -> seq R) (pos : pyobj R) (a : ndarray R)
    (lead idx : seq nat) (n_up n_down i j b : nat) :
  let nelec := (n_up + n_down)%N in
  pointwise scf_approx nbasis phi_up phi_dn ->
  array_of pos = Some a ->
  Np.shape a = rcons lead (nelec * 3)%N ->
  same_spin n_up n_down i j ->
  Np.ravel lead idx 0 = Some b ->
  Np.block 3 (Np.data a) (b * nelec + i) = Np.block 3 (Np.data a) (b * nelec + j) ->
  exists alpha beta,
    [/\ eval_orbitals scf_approx pos (n_up, n_down)
        = ([:: points lead nelec a], Ok (alpha, beta)),
        (i < n_up)%N -> forall c, (c < minn n_up nbasis)%N ->
          exists2 v, Np.get 0 alpha (idx ++ [:: i; c]) = Some v
                   & Np.get 0 alpha (idx ++ [:: j; c]) = Some v
      & (n_up <= i)%N -> forall c, (c < minn n_down nbasis)%N ->
          exists2 v, Np.get 0 beta (idx ++ [:: i - n_up; c])%N = Some v
                   & Np.get 0 beta (idx ++ [:: j - n_up; c])%N = Some v].
Proof.
move=> nelec Hpw Hpos Hsh Hspin Hidx Hsame.
have Hb : (b < prodn lead)%N by have := ravel_lt Hidx; rewrite mul1n.
have [Hi Hj] : (i < nelec)%N /\ (j < nelec)%N.
  case/orP: Hspin => [/andP [H1 H2]|/and4P [_ _ -> ->] //].
  by split; [apply: leq_trans H1 _ | apply: leq_trans H2 _]; rewrite leq_addr.
have Hpos0 : (0 < prodn lead * nelec)%N.
  by rewrite muln_gt0 (leq_ltn_trans (leq0n b) Hb) (leq_ltn_trans (leq0n i) Hi).
rewrite (eval_orbitals_array _ _ Hpos).
have [alpha [beta [Horb Ha Hd]]] := eval_orbitals_entries Hpw Hsh Hpos0.
exists alpha, beta; split=> // [Hiu|Hiu] c Hc.
- have Hju : (j < n_up)%N.
    by case/orP: Hspin => [/andP [_ ->] //|/and4P [Hge _ _ _]]; rewrite ltnNge Hge in Hiu.
  by eexists; [exact: (Ha _ _ _ _ Hidx Hiu Hc) | rewrite (Ha _ _ _ _ Hidx Hju Hc) Hsame].
- have Hju : (n_up <= j)%N.
    by case/orP: Hspin => [/andP [Hlt _]|/and4P [_ -> _ _] //]; rewrite ltnNge Hiu in Hlt.
  have Hi' : (i - n_up < n_down)%N by rewrite ltn_subLR.
  have Hj' : (j - n_up < n_down)%N by rewrite ltn_subLR.
  eexists; first exact: (Hd _ _ _ _ Hidx Hi' Hc).
  by rewrite (Hd _ _ _ _ Hidx Hj' Hc) !subnKC // Hsame.
Qed.

(** X16. Exchanging the coordinates of two electrons of the same spin, in
    every configuration, exchanges the two rows of these electrons in the
    matrix of their spin and changes nothing else: row [r] of a matrix
    returned for the exchanged positions is the row of the electron that
    took the place of electron [r], and the matrix of the other spin is the
    same. *)
Theorem eval_orbitals_exchange (scf_approx : scf R) (nbasis : nat)
    (phi_up phi_dn : seq R -> seq R) (pos : pyobj R) (a : ndarray R)
    (lead : seq nat) (n_up n_down i j : nat) :
  let nelec := (n_up + n_down)%N in
  pointwise scf_approx nbasis phi_up phi_dn ->
  array_of pos = Some a ->
  Np.shape a = rcons lead (nelec * 3)%N -> Np.wf a ->
  0%N \notin lead ->
  same_spin n_up n_down i j ->
  exists alpha beta alpha' beta',
    [/\ eval_orbitals scf_approx pos (n_up, n_down)
        = ([:: points lead nelec a], Ok (alpha, beta)),
        eval_orbitals scf_approx (swap_pos nelec i j pos) (n_up, n_down)
        = ([:: points lead nelec (swap_electrons nelec i j a)], Ok (alpha', beta')),
        forall idx b r c,
          Np.ravel lead idx 0 = Some b -> (r < n_up)%N -> (c < minn n_up nbasis)%N ->
          (exchange i j r < n_up)%N
          /\ exists2 v, Np.get 0 alpha' (idx ++ [:: r; c]) = Some v
                      & Np.get 0 alpha (idx ++ [:: exchange i j r; c]) = Some v
      & forall idx b r c,
          Np.ravel lead idx 0 = Some b -> (r < n_down)%N ->
          (c < minn n_down nbasis)%N ->
          (n_up <= exchange i j (n_up + r) < nelec)%N
          /\ exists2 v, Np.get 0 beta' (idx ++ [:: r; c]) = Some v
                      & Np.get 0 beta (idx ++ [:: exchange i j (n_up + r) - n_up; c])%N
                        = Some v].
Proof.
move=> nelec Hpw Hpos Hsh Hwf Hlead Hspin.
have [Hi Hj] : (i < nelec)%N /\ (j < nelec)%N.
  case/orP: Hspin => [/andP [H1 H2]|/and4P [_ _ -> ->] //].
  by split; [apply: leq_trans H1 _ | apply: leq_trans H2 _]; rewrite leq_addr.
have Hpos0 : (0 < prodn lead * nelec)%N.
  by rewrite muln_gt0 (leq_ltn_trans (leq0n i) Hi) andbT lt0n prodn_eq0.
have Hsh' : Np.shape (swap_electrons nelec i j a) = rcons lead (nelec * 3)%N by [].
rewrite (eval_orbitals_array _ _ Hpos).
rewrite (eval_orbitals_array _ _ (array_of_swap nelec i j Hpos)).
have [alpha [beta [Horb Ha Hd]]] := eval_orbitals_entries Hpw Hsh Hpos0.
have [alpha' [beta' [Horb' Ha' Hd']]] := eval_orbitals_entries Hpw Hsh' Hpos0.
have Hup e : (e < n_up)%N -> (exchange i j e < n_up)%N.
  move=> He; rewrite /exchange; case: eqP => [E|_]; last by case: eqP => [E|_] //;
    case/orP: Hspin => [/andP [-> _] //|/and4P [_ Hge _ _]];
    rewrite -E leqNgt He in Hge.
  by case/orP: Hspin => [/andP [_ ->] //|/and4P [Hge _ _ _]]; rewrite -E leqNgt He in Hge.
have Hdown e : (n_up <= e < nelec)%N -> (n_up <= exchange i j e < nelec)%N.
  move=> /andP [Hge Hlt]; rewrite /exchange; case: eqP => [E|_].
    by case/orP: Hspin => [/andP [Hlti _]|/and4P [_ -> _ ->] //];
      rewrite -E ltnNge Hge in Hlti.
  case: eqP => [E|_]; last by rewrite Hge Hlt.
  by case/orP: Hspin => [/andP [_ Hltj]|/and4P [-> _ -> _] //];
    rewrite -E ltnNge Hge in Hltj.
exists alpha, beta, alpha', beta'; split=> // idx b r c Hidx Hr Hc.
- have Hb : (b < prodn lead)%N by have := ravel_lt Hidx; rewrite mul1n.
  have Hre : (r < nelec)%N by apply: leq_trans Hr (leq_addr _ _).
  split; first exact: Hup.
  eexists; first exact: (Ha' _ _ _ _ Hidx Hr Hc).
  by rewrite (Ha _ _ _ _ Hidx (Hup _ Hr) Hc) (swap_electrons_point Hsh Hwf Hi Hj Hb Hre).
- have Hb : (b < prodn lead)%N by have := ravel_lt Hidx; rewrite mul1n.
  have Hre : (n_up <= n_up + r < nelec)%N by rewrite leq_addr ltn_add2l.
  have /andP [Hge Hlt] := Hdown _ Hre.
  have /andP [_ Hre'] := Hre.
  split; first exact: Hdown.
  eexists; first exact: (Hd' _ _ _ _ Hidx Hr Hc).
  have Hr' : (exchange i j (n_up + r) - n_up < n_down)%N by rewrite ltn_subLR.
  rewrite (Hd _ _ _ _ Hidx Hr' Hc) subnKC //.
  by rewrite (swap_electrons_point Hsh Hwf Hi Hj Hb Hre').
Qed.

End OrbitalMatrices.

(** ** The call of [eval_mos] *)

Section OrbitalCalls.

Variable R : realDomainType.
Import Reference.

(** X6. [eval_orbitals] evaluates the orbitals at most once. When the
    number of coordinates of an array of positions is a multiple of 3, the
    one call of [eval_mos] receives them as an array of shape [(n/3, 3)],
    whatever happens afterwards; otherwise the first reshape raises a
    [ValueError] and [eval_mos] is not called. *)
Theorem eval_orbitals_coordinates (scf_approx : scf R) (pos : pyobj R)
    (a : ndarray R) (spins : nat * nat) :
  array_of pos = Some a ->
  let n := prodn (Np.shape a) in
  if (3 %| n)%N then
    (eval_orbitals scf_approx pos spins).1
    = [:: NdArray [:: (n %/ 3)%N; 3%N] (Np.data a)]
  else
    exists msg, eval_orbitals scf_approx pos spins = ([::], Raise (ValueError msg)).
Proof.
move=> Hpos n; rewrite (eval_orbitals_array _ _ Hpos).
rewrite /eval_orbitals /= /lift /= /Np.reshape /= muln1 -/n /dvdn.
case: eqP => [_|_] /=; last by eexists.
case: (mapM _ _) => [mos|e] //=.
case: (list_get mos 0) => [m0|e] //=.
case: (Np.slice_last2 m0 _ _) => [al|e] //=.
case: (list_get mos 1) => [m1|e] //=.
by case: (Np.slice_last2 m1 _ _) => [be|e].
Qed.


Lemma reshape_last_spec (T : Type) (a : ndarray T) (lead : seq nat) (m : nat) :
  Np.reshape a ([seq Some d | d <- lead] ++ [:: Some m; None])
  = if (prodn lead * m == 0)%N || (prodn (Np.shape a) %% (prodn lead * m) != 0)%N
    then Raise (ValueError "cannot reshape array")
    else Ok (NdArray (lead ++ [:: m; (prodn (Np.shape a) %/ (prodn lead * m))%N])
               (Np.data a)).
Proof.
rewrite /Np.reshape.
have -> : count (fun d : option nat => ~~ d) ([seq Some d | d <- lead] ++ [:: Some m; None]) = 1%N.
  by rewrite count_cat count_map /= (@eq_count _ _ pred0) ?count_pred0.
have -> : Np.known_dims ([seq Some d | d <- lead] ++ [:: Some m; None]) = lead ++ [:: m].
  rewrite /Np.known_dims pmap_cat /=; congr cat.
  by elim: (lead) => //= d l ->.
rewrite prodn_cat /= muln1; case: ifP => // _.
by rewrite map_cat -map_comp /= map_id.
Qed.

(** X7. [eval_orbitals] does not compare [spins] with the number of
    electrons in the positions. With [nelec] electrons per configuration
    and [nbasis] orbitals, it returns whenever [n_up + n_down] is positive
    and divides [nelec * nbasis], regrouping the orbital values into rows
    of [nelec * nbasis / (n_up + n_down)] entries; otherwise the reshape of
    the orbitals raises a [ValueError]. *)
Theorem eval_orbitals_spin_count (scf_approx : scf R) (pos : pyobj R)
    (a up dn : ndarray R) (lead : seq nat) (nelec nbasis n_up n_down : nat) :
  let s := (n_up + n_down)%N in
  let k := ((nelec * nbasis) %/ s)%N in
  array_of pos = Some a ->
  Np.shape a = rcons lead (nelec * 3)%N -> 0%N \notin lead ->
  eval_mos scf_approx (points lead nelec a) = [:: up; dn] ->
  Np.shape up = [:: (prodn lead * nelec)%N; nbasis] ->
  Np.shape dn = [:: (prodn lead * nelec)%N; nbasis] ->
  if (0 < s)%N && (s %| nelec * nbasis)%N then
    exists alpha beta,
      [/\ eval_orbitals scf_approx pos (n_up, n_down)
          = ([:: points lead nelec a], Ok (alpha, beta)),
          Np.shape alpha = lead ++ [:: n_up; minn n_up k]
        & Np.shape beta = lead ++ [:: n_down; minn n_down k]]
  else
    exists msg,
      eval_orbitals scf_approx pos (n_up, n_down)
      = ([:: points lead nelec a], Raise (ValueError msg)).
Proof.
move=> s k Hpos Hsh Hlead Hmos Hup Hdn.
have HP : (0 < prodn lead)%N by rewrite lt0n prodn_eq0.
have Hsz : prodn (Np.shape a) = (prodn lead * nelec * 3)%N.
  by rewrite Hsh -cats1 prodn_cat /= muln1 mulnA.
rewrite (eval_orbitals_array _ _ Hpos).
rewrite /eval_orbitals /= Hsh size_rcons /= -cats1 take_size_cat //.
rewrite (reshape_infer_first Hsz) //= -/(points lead nelec a) Hmos /=.
rewrite !reshape_last_spec Hup Hdn /= muln1 -/s.
rewrite muln_eq0 -[(prodn lead == 0)%N]negbK -lt0n HP /= -mulnA.
rewrite -[(_ %% _ != 0)%N]/(~~ (prodn lead * s %| prodn lead * (nelec * nbasis))%N).
rewrite dvdn_pmul2l // divnMl // -/k lt0n.
case: (s == 0)%N => /=; first by eexists.
case: (s %| _)%N => /=; last by eexists.
rewrite !(@slice_last2_cat _ _ lead s k) //=.
do 2!eexists; split; first by [].
  by rewrite /Np.slice_len /Np.slice_hi /Np.slice_lo /= !min0n !subn0
       (minn_idPl (leq_addr _ _)).
by rewrite /Np.slice_len /Np.slice_hi /Np.slice_lo /= !min0n !subn0 minnn
     (minn_idPl (leq_addr _ _)) addKn.
Qed.

End OrbitalCalls.

(** ** The loss with the default envelope *)

Section LossFacts.

Variable R : realFieldType.
Local Open Scope ring_scope.

Lemma bshape_unit_envelope (d k r c : nat) :
  Np.bshape (rev [:: d; 1; 1; 1]%N) (rev [:: d; k; r; c]) = Some (rev [:: d; k; r; c]).
Proof.
rewrite /= ![(1%N == _)]eq_sym !orbb eqxx /=.
by case: (c =P 1%N) => [->|_]; case: (r =P 1%N) => [->|_];
  case: (k =P 1%N) => [->|_].
Qed.

Lemma boffset_unit_envelope (d k r c t : nat) :
  (0 < d)%N -> (Np.boffset (rev [:: d; 1; 1; 1]%N) (rev [:: d; k; r; c]) t < d)%N.
Proof.
move=> Hd; rewrite /= !mul1n !add0n muln0 addn0.
by case: eqP => // _; rewrite ltn_pmod.
Qed.

Lemma unit_envelope (o : ndarray R) (d k r c : nat) :
  Np.shape o = [:: d; k; r; c] -> Np.wf o ->
  Np.binop 0 *%R (NdArray [:: d; 1; 1; 1]%N (nseq d 1)) o = Ok o.
Proof.
case: o => sh s /= -> /eqP /= Hs.
have Hp : prodn [:: d; k; r; c] = size s by [].
rewrite /Np.binop.
rewrite -[Np.shape (NdArray [:: d; 1; 1; 1]%N _)]/([:: d; 1; 1; 1]%N).
rewrite -[Np.shape (NdArray [:: d; k; r; c] s)]/([:: d; k; r; c]).
rewrite bshape_unit_envelope revK prodn_rev Hp.
rewrite -[Np.data (NdArray [:: d; 1; 1; 1]%N _)]/(nseq d 1).
rewrite -[Np.data (NdArray [:: d; k; r; c] s)]/s.
congr (Ok (NdArray _ _)).
apply: (@eq_from_nth _ 0); rewrite size_mkseq // => t Ht.
have Hd : (0 < d)%N by move: Ht; rewrite Hs; case: (d).
rewrite nth_mkseq // boffset_same ?prodn_rev ?Hp // nth_nseq.
by rewrite boffset_unit_envelope // mul1r.
Qed.

Section DefaultEnvelope.

Variable exp : R -> R.
Variables (params envelope_params : Type).
Variable get_envelope : params -> envelope_params.
Variable construct_input_features :
  ndarray R -> ndarray R -> ndarray R * ndarray R * ndarray R * ndarray R.
Variable exact_cusp_envelope :
  ndarray R -> ndarray R -> envelope_params -> ndarray R -> nat * nat -> ndarray R.
Variable output_envelope : ndarray R -> envelope_params -> ndarray R.
Variable batch_orbitals : params -> ndarray R -> result (seq (ndarray R)).

Local Notation envelope_fn :=
  (Pretrain.envelope_fn construct_input_features exact_cusp_envelope output_envelope).

Lemma in_zip_snd (A B : Type) (s : seq A) (t : seq B) (v : A * B) :
  List.In v (zip s t) -> List.In v.2 t.
Proof.
elim: s t => [|x s IH] [|y t] //= [<-|Hv]; first by left.
by right; apply: IH.
Qed.

Lemma vmap_zero_envelope (A : Type) (p : A) (x : ndarray R) (d : nat)
    (shx : seq nat) :
  Np.shape x = d :: shx ->
  Pretrain.vmap (fun _ _ => Pretrain.py_float (0 : R)) p x
  = Ok (NdArray [:: d] (nseq d 0)).
Proof.
move=> Hsh; rewrite /Pretrain.vmap /Np.unstack Hsh /= -map_comp.
rewrite (@stack_const _ _ (Pretrain.py_float 0)) size_iota /=.
congr (Ok (NdArray _ _)); first by case: (d).
by elim: (d) (0%N) => [|n IH] st //=; rewrite IH.
Qed.

(** X9. With an envelope type other than ['exact_cusp'] and ['output']
    (so with the default one), and [exp 0 = 1], the envelope factor is 1
    for every configuration: the loss of [loss_fn] before its [pmean] is
    the plain mean squared error between the targets and the orbitals of
    the network. *)
Theorem default_envelope_loss (envelope_type : string)
    (atoms charges : ndarray R) (electrons : nat * nat) (full_det : bool)
    (n : nat) (x : ndarray R) (p : params) (target os : seq (ndarray R))
    (d : nat) (shx : seq nat) :
  envelope_type <> "exact_cusp"%string -> envelope_type <> "output"%string ->
  exp 0 = 1 -> (0 < n)%N ->
  Np.shape x = d :: shx ->
  batch_orbitals p x = Ok os ->
  (forall o, List.In o os ->
     Np.wf o /\ exists k r c, Np.shape o = [:: d; k; r; c]) ->
  Pretrain.loss_result exp get_envelope
    (Pretrain.vmap (envelope_fn envelope_type atoms charges electrons))
    batch_orbitals full_det n x p target
  = if full_det then
      (t <- Pretrain.full_det_target target ;;
       o <- list_get os 0 ;;
       plain_error t o)%res
    else
      (rs <- mapM (fun to => plain_error to.1 to.2) (zip target os) ;;
       Ok (foldr +%R 0 rs))%res.
Proof.
move=> /eqb_neq Hc /eqb_neq Ho Hexp Hn Hx Hos Hshape.
rewrite /Pretrain.loss_result /Pretrain.envelope_fn Hc Ho (vmap_zero_envelope _ Hx).
rewrite [rbind (Ok _) _]/= /Np.unop [Np.shape _]/= [Np.data _]/=.
rewrite map_nseq mul0r Hexp.
have -> : Np.reshape (NdArray [:: d] (nseq d (1 : R)))
            [:: Some d; Some 1%N; Some 1%N; Some 1%N]
          = Ok (NdArray [:: d; 1; 1; 1]%N (nseq d 1)).
  by rewrite /Np.reshape /= !muln1 eqxx.
rewrite [rbind (Ok _) _]/= Hos.
have Hmse t o : List.In o os ->
    Pretrain.mean_square_error t (NdArray [:: d; 1; 1; 1]%N (nseq d 1)) o
    = plain_error t o.
  move=> /Hshape [Hwf [k [r [c Hsh]]]].
  by rewrite /Pretrain.mean_square_error /plain_error (unit_envelope Hsh Hwf).
case: full_det.
  case: (Pretrain.full_det_target target) => [t|] //=.
  case Hg : (list_get os 0) => [o|] //=.
  by rewrite Hmse //; apply: list_get_In Hg.
rewrite [rbind (Ok _) _]/=.
rewrite (@mapM_ext_in _ _ _ (fun to => plain_error to.1 to.2)) // => v Hv.
by rewrite Hmse //; apply: in_zip_snd Hv.
Qed.

End DefaultEnvelope.

End LossFacts.

(** ** Sequencing of traced computations *)

Section TracedFacts.

Variables (E A B : Type).

Local Open Scope traced_scope.

Lemma tbind_ok (m : traced E A) (k : A -> traced E B) (log : seq E) (b : B) :
  (x <- m ;; k x) = (log, Ok b) ->
  exists l1 a l2, [/\ m = (l1, Ok a), k a = (l2, Ok b) & log = l1 ++ l2].
Proof.
rewrite /tbind; case: m => l1 [a|e] //.
by case E2 : (k a) => [l2 r] [<- Hr]; exists l1, a, l2; rewrite E2 Hr.
Qed.


End TracedFacts.

Lemma identical_map (A B : Type) (f : A -> B) (s : seq A) :
  (forall x y, List.In x s -> List.In y s -> f x = f y) ->
  identical [seq f x | x <- s].
Proof.
move=> H x y /List.in_map_iff [x' [<- Hx]] /List.in_map_iff [y' [<- Hy]].
exact: H.
Qed.

Lemma identical_In_map (A B : Type) (f : A -> B) (s : seq A) (x y : A) :
  identical [seq f x | x <- s] -> List.In x s -> List.In y s -> f x = f y.
Proof. by move=> H Hx Hy; apply: H; apply: List.in_map. Qed.

(** ** The loop of [pretrain_hartree_fock] *)

Section LoopFacts.

Variable R : realFieldType.
Variable exp : R -> R.
Variables (params envelope_params opt_state prng_key : Type).
Variable get_envelope : params -> envelope_params.
Variable apply_updates : params -> params -> params.
Variable mh_update :
  params -> (params -> ndarray R -> ndarray R) -> ndarray R -> prng_key ->
  ndarray R -> R -> ndarray R * prng_key * ndarray R * R.
Variable grad : (params -> result R) -> params -> params.
Variable tree_pmean : seq params -> params.
Variable p_split : seq prng_key -> seq prng_key * seq prng_key.

Local Notation replica := (Pretrain.replica R params opt_state prng_key).
Local Notation step_out := (Pretrain.step_out R params opt_state).
Local Notation loop_state := (Pretrain.loop_state R params opt_state prng_key).

Section Loop.

Variable batch_network : params -> ndarray R -> ndarray R.
Variable electrons : nat * nat.
Variable scf_approx : Reference.scf R.
Variable batch_envelope_fn : envelope_params -> ndarray R -> result (ndarray R).
Variable batch_orbitals : params -> ndarray R -> result (seq (ndarray R)).
Variable opt : Pretrain.optimizer params opt_state.
Variable full_det : bool.

Local Notation local_directions :=
  (Pretrain.local_directions exp get_envelope grad batch_envelope_fn
     batch_orbitals full_det).
Local Notation pmap_pretrain_step :=
  (Pretrain.pmap_pretrain_step exp get_envelope apply_updates mh_update grad
     tree_pmean batch_envelope_fn batch_orbitals batch_network opt full_det).
Local Notation pretrain_iteration :=
  (Pretrain.pretrain_iteration exp get_envelope apply_updates mh_update grad
     tree_pmean p_split batch_network electrons scf_approx batch_envelope_fn
     batch_orbitals opt full_det).
Local Notation pretrain_loop :=
  (Pretrain.pretrain_loop exp get_envelope apply_updates mh_update grad
     tree_pmean p_split batch_network electrons scf_approx batch_envelope_fn
     batch_orbitals opt full_det).
Local Notation stepE :=
  (pretrain_stepE exp get_envelope apply_updates mh_update grad tree_pmean
     batch_envelope_fn batch_orbitals batch_network opt full_det).

Local Open Scope ring_scope.

Lemma pmap_replicated (ws : seq replica) (outs : seq step_out) :
  identical [seq Pretrain.r_params r | r <- ws] ->
  identical [seq Pretrain.r_state r | r <- ws] ->
  pmap_pretrain_step ws = Ok outs ->
  identical [seq Pretrain.o_params o | o <- outs]
  /\ identical [seq Pretrain.o_state o | o <- outs].
Proof.
move=> Hp Hs Hmap.
have Hout o : List.In o outs ->
    exists r ds, [/\ List.In r ws, local_directions ws = Ok ds,
      Pretrain.o_params o
      = apply_updates (Pretrain.r_params r)
          (Pretrain.update opt (tree_pmean ds) (Pretrain.r_state r)
             (Pretrain.r_params r)).1
    & Pretrain.o_state o
      = (Pretrain.update opt (tree_pmean ds) (Pretrain.r_state r)
           (Pretrain.r_params r)).2].
  move=> Ho; have [[k r] Hkr /=] := mapM_In Hmap Ho.
  have Hat := zip_iota_replica_at Hkr.
  have [_ _ Hr _] := in_zip_iota Hkr.
  rewrite (stepE Hat) /=.
  case: (Pretrain.loss_and_grad _ _ _ _ _ _ _ _ _) => [lg|e] //=.
  case Hds : (local_directions ws) => [ds|e] //= [<-] /=.
  by exists r, ds.
split; apply: identical_map => o1 o2 /Hout [r1 [ds1 [Hr1 Hds1 Hp1 Hs1]]]
    /Hout [r2 [ds2 [Hr2 Hds2 Hp2 Hs2]]];
  move: Hds2; rewrite Hds1 => -[Hds]; rewrite -Hds in Hp2 Hs2.
- by rewrite Hp1 Hp2 (identical_In_map Hp Hr1 Hr2) (identical_In_map Hs Hr1 Hr2).
- by rewrite Hs1 Hs2 (identical_In_map Hp Hr1 Hr2) (identical_In_map Hs Hr1 Hr2).
Qed.

Lemma shard_state (data logprob : ndarray R) (target : ndarray R * ndarray R)
    (ps : seq params) (ss : seq opt_state) (keys : seq prng_key) (ws : seq replica) :
  Pretrain.shard data target ps ss keys logprob = Ok ws ->
  [seq Pretrain.r_state r | r <- ws] = ss.
Proof.
rewrite /Pretrain.shard.
case: (Np.unstack data) => [ds|] //=; case: (Np.unstack target.1) => [ta|] //=.
case: (Np.unstack target.2) => [tb|] //=; case: (Np.unstack logprob) => [lps|] //=.
case: ifP => // /and5P [/eqP H1 /eqP H2 /eqP H3 /eqP H4 /andP [/eqP H5 /eqP H6]] [<-].
have S5 : size ss = size (zip keys lps) by rewrite size_zip H4 H5 H6 minnn.
have S4 : size ps = size (zip ss (zip keys lps)) by rewrite size_zip -S5 H3 H4 minnn.
have S3 : size tb = size (zip ps (zip ss (zip keys lps))).
  by rewrite size_zip -S4 H3 H2 minnn.
have S2 : size ta = size (zip tb (zip ps (zip ss (zip keys lps)))).
  by rewrite size_zip -S3 H2 H1 minnn.
have S1 : size ds = size (zip ta (zip tb (zip ps (zip ss (zip keys lps))))).
  by rewrite size_zip -S2 H1 minnn.
rewrite -map_comp.
rewrite (@map_zip_snd _ _ _ (fun z : _ * (_ * (_ * (opt_state * _))) => z.2.2.2.1) _ _ S1).
rewrite (@map_zip_snd _ _ _ (fun z : _ * (_ * (opt_state * _)) => z.2.2.1) _ _ S2).
rewrite (@map_zip_snd _ _ _ (fun z : _ * (opt_state * _) => z.2.1) _ _ S3).
rewrite (@map_zip_snd _ _ _ (fun z : opt_state * _ => z.1) _ _ S4).
by rewrite (@map_zip_fst _ _ _ id _ _ S5) map_id.
Qed.

(** What an iteration that completes did. *)
Lemma pretrain_iteration_ok (t : nat) (st st' : loop_state) (log : seq (nat * R)) :
  pretrain_iteration t st = (log, Ok st') ->
  exists target ws outs,
    [/\ (Reference.eval_orbitals scf_approx
           (Reference.PyJaxArray (Pretrain.ls_data st)) electrons).2 = Ok target,
        Pretrain.shard (Pretrain.ls_data st) target (Pretrain.ls_params st)
          (Pretrain.ls_opt_state st) (p_split (Pretrain.ls_key st)).2
          (Pretrain.ls_logprob st) = Ok ws,
        pmap_pretrain_step ws = Ok outs,
        [/\ Pretrain.ls_params st' = [seq Pretrain.o_params o | o <- outs],
            Pretrain.ls_opt_state st' = [seq Pretrain.o_state o | o <- outs]
          & Pretrain.ls_key st' = (p_split (Pretrain.ls_key st)).1]
      & [seq l.1 | l <- log] = [:: t]].
Proof.
rewrite /Pretrain.pretrain_iteration /= /lift /=.
case Ht : (Reference.eval_orbitals _ _ _).2 => [target|] //=.
case Hsp : (p_split _) => [sharded_key subkeys] /=.
case Hws : (Pretrain.shard _ _ _ _ _ _) => [ws|] //=.
case Hout : (pmap_pretrain_step ws) => [outs|] //=.
case: (Np.stack _) => [data|] //=; case: (Np.stack _) => [logprob|] //=.
case Hl0 : (list_get _ 0) => [loss0|] //= [<- <-] /=.
by exists target, ws, outs.
Qed.


Lemma pretrain_loopS (t n : nat) (st : loop_state) :
  pretrain_loop t n.+1 st
  = tbind (pretrain_iteration t st) (fun st' => pretrain_loop t.+1 n st').
Proof. by []. Qed.

Lemma pretrain_loop_replicated (t n : nat) (st st' : loop_state)
    (log : seq (nat * R)) :
  pretrain_loop t n st = (log, Ok st') ->
  identical (Pretrain.ls_params st) -> identical (Pretrain.ls_opt_state st) ->
  identical (Pretrain.ls_params st') /\ identical (Pretrain.ls_opt_state st').
Proof.
elim: n t st log => [|n IH] t st log; first by case=> _ <-.
rewrite pretrain_loopS => Hb Hp Hs.
have [l1 [st1 [l2 [Hit Hloop _]]]] := tbind_ok Hb.
have [target [ws [outs [_ Hws Hout [Hp1 Hs1 _] _]]]] := pretrain_iteration_ok Hit.
rewrite -(shard_params Hws) in Hp; rewrite -(shard_state Hws) in Hs.
have [Hp' Hs'] := pmap_replicated Hp Hs Hout.
by apply: IH Hloop _ _; rewrite ?Hp1 ?Hs1.
Qed.



(** X11. Pretraining cannot start from an empty batch: when the walkers
    hold no configuration, or no electron, the first iteration raises a
    [ValueError] from the reshape of the orbitals, and nothing is logged. *)
Theorem pretrain_loop_empty_batch (t n : nat) (st : loop_state)
    (lead : seq nat) (mo : ndarray R) (mos : seq (ndarray R)) :
  let nelec := (electrons.1 + electrons.2)%N in
  Np.shape (Pretrain.ls_data st) = rcons lead (nelec * 3)%N ->
  (prodn lead * nelec)%N = 0%N ->
  Reference.eval_mos scf_approx (Reference.points lead nelec (Pretrain.ls_data st))
  = mo :: mos ->
  exists msg, pretrain_loop t n.+1 st = ([::], Raise (ValueError msg)).
Proof.
case: electrons => n_up n_down /= Hsh H0 Hmos.
rewrite /Pretrain.pretrain_iteration /=.
rewrite (@eval_orbitals_array _ _ _ (Pretrain.ls_data st)) //.
by rewrite (eval_orbitals_empty Hsh H0 Hmos) /=; eexists.
Qed.

End Loop.


Section Driver.

Variable aux : Type.
Variable fermi_net_orbitals :
  params -> ndarray R -> ndarray R -> nat * nat -> string -> bool ->
  seq (ndarray R) * aux.
Variable construct_input_features :
  ndarray R -> ndarray R -> ndarray R * ndarray R * ndarray R * ndarray R.
Variable exact_cusp_envelope :
  ndarray R -> ndarray R -> envelope_params -> ndarray R -> nat * nat -> ndarray R.
Variable output_envelope : ndarray R -> envelope_params -> ndarray R.
Variable adam : R -> Pretrain.optimizer params opt_state.

Local Notation pretrain_hartree_fock :=
  (Pretrain.pretrain_hartree_fock exp get_envelope apply_updates mh_update grad
     tree_pmean fermi_net_orbitals construct_input_features exact_cusp_envelope
     output_envelope adam p_split).

Local Open Scope ring_scope.

(** A call of the driver is its loop, run from the state the set-up
    builds, unless the set-up raises. *)
Lemma pretrain_hartree_fockE (ps : seq params) (data : ndarray R)
    (batch_network : params -> ndarray R -> ndarray R)
    (sharded_key : seq prng_key) (molecule : seq (Pretrain.atom R))
    (electrons : nat * nat) (scf_approx : Reference.scf R)
    (envelope_type : option string) (full_det : option bool)
    (iterations : option nat) (log : seq (nat * R))
    (res : result (seq params * ndarray R)) :
  pretrain_hartree_fock ps data batch_network sharded_key molecule
    electrons scf_approx envelope_type full_det iterations = (log, res) ->
  (log = [::] /\ exists e, res = Raise e)
  \/ exists batch_envelope_fn batch_orbitals logprob lr,
       let opt := adam (3%:R / 10000%:R) in
       Pretrain.pretrain_loop exp get_envelope apply_updates mh_update
         grad tree_pmean p_split batch_network electrons scf_approx
         batch_envelope_fn batch_orbitals opt
         (odflt Pretrain.default_full_det full_det) 0
         (odflt Pretrain.default_iterations iterations)
         (Pretrain.LoopState data ps [seq Pretrain.init opt p | p <- ps]
            sharded_key logprob) = (log, lr)
       /\ res = match lr with
                | Ok st => Ok (Pretrain.ls_params st, Pretrain.ls_data st)
                | Raise e => Raise e
                end.
Proof.
rewrite /Pretrain.pretrain_hartree_fock /lift.
case: (Np.stack _) => [atoms|e] /=; last by case=> <- <-; left; split=> //; exists e.
case: (Np.unstack data) => [ds|e] /=; last by case=> <- <-; left; split=> //; exists e.
case: ifP => _ /=; last by case=> <- <-; left; split=> //; eexists.
case: (Np.stack _) => [lp|e] /=; last by case=> <- <-; left; split=> //; exists e.
case Hloop : (Pretrain.pretrain_loop _ _ _ _ _ _ _ _ _ _ _ _ _ _ _ _ _) => [l lr] Hres.
have [Hl Hr] : l = log /\ res = match lr with
                                  | Ok st => Ok (Pretrain.ls_params st, Pretrain.ls_data st)
                                  | Raise e => Raise e
                                  end.
  by case: lr Hres {Hloop} => [st|e] /= [<- <-]; rewrite ?cats0.
by right; do 3!eexists; exists lr; cbv zeta; split; [rewrite -Hl; exact: Hloop|].
Qed.

(** X12. When every device enters [pretrain_hartree_fock] with the same
    parameters, the parameters it returns are the same on every device:
    the optimizer states start equal, and each step keeps parameters and
    states equal across the devices. *)
Theorem pretrain_hartree_fock_replicated (ps ps' : seq params)
    (data data' : ndarray R)
    (batch_network : params -> ndarray R -> ndarray R)
    (sharded_key : seq prng_key) (molecule : seq (Pretrain.atom R))
    (electrons : nat * nat) (scf_approx : Reference.scf R)
    (envelope_type : option string) (full_det : option bool)
    (iterations : option nat) (log : seq (nat * R)) :
  identical ps ->
  pretrain_hartree_fock ps data batch_network sharded_key molecule
    electrons scf_approx envelope_type full_det iterations
  = (log, Ok (ps', data')) ->
  identical ps'.
Proof.
move=> Hps /pretrain_hartree_fockE [[_ [e]] //|].
move=> [benv [borb [logprob [[st|e] /= [Hloop]]]]] // [-> _].
have [] // := pretrain_loop_replicated Hloop Hps.
by apply: identical_map => x y Hx Hy; rewrite (Hps _ _ Hx Hy).
Qed.


End Driver.

End LoopFacts.

(** ** The further properties on the small system *)

Section ToyRuns.

Local Open Scope ring_scope.

(** X1 on the two walkers of three electrons. *)
Lemma eval_slater_returns_witness :
  let pts := NdArray [:: 6; 3]%N (Np.data Toy.walkers) in
  let up := Reference.orbitals_at 3 (@Toy.orbitals int) pts in
  [/\ Reference.array_of (Reference.PyJaxArray Toy.walkers) = Some Toy.walkers
      /\ Np.shape Toy.walkers = rcons [:: 2%N] ((2 + 1) * 3)%N,
      [&& 0%N \notin [:: 2%N], (0 < 2 + 1)%N, (2 <= 3)%N & (1 <= 3)%N],
      Reference.eval_mos (Toy.scf int) pts = [:: up; up],
      Np.shape up = [:: 6; 3]%N
    & exists sign logabs,
        [/\ Reference.eval_slater id (Toy.scf int) (Reference.PyJaxArray Toy.walkers)
              (2%N, 1%N) = ([:: pts], Ok (sign, logabs)),
            Np.shape sign = [:: 2%N]
          & all Reference.is_sign (Np.data sign)]].
Proof.
move=> pts up.
have Hpos : Reference.array_of (Reference.PyJaxArray Toy.walkers) = Some Toy.walkers by [].
have Hsh : Np.shape Toy.walkers = rcons [:: 2%N] ((2 + 1) * 3)%N by [].
have Hlead : 0%N \notin [:: 2%N] by [].
have Hne : (0 < 2 + 1)%N by [].
have Hmos : Reference.eval_mos (Toy.scf int)
              (Reference.points [:: 2%N] (2 + 1) Toy.walkers) = [:: up; up] by [].
have Hup : Np.shape up = [:: (prodn [:: 2%N] * (2 + 1))%N; 3%N] by [].
have Hnu : (2 <= 3)%N by [].
have Hnd : (1 <= 3)%N by [].
split; [by [] | by [] | exact: Hmos | by [] |].
have [sign [logabs [H1 [H2 _] _ H3]]] :=
  eval_slater_returns id Hpos Hsh Hlead Hne Hmos Hup Hup Hnu Hnd.
by exists sign, logabs.
Defined.

(** X2 on the two walkers of three electrons: the first entry of the
    spin-up matrix is the first orbital, [x], at the first electron. *)
Lemma eval_orbitals_pointwise_witness :
  [/\ Reference.pointwise (Toy.scf int) 3 (@Toy.orbitals int) (@Toy.orbitals int),
      Np.shape Toy.walkers = rcons [:: 2%N] ((2 + 1) * 3)%N,
      (0%N \notin [:: 2%N]) && (0 < 2 + 1)%N
    & exists alpha beta,
        Reference.eval_orbitals (Toy.scf int) (Reference.PyJaxArray Toy.walkers)
          (2%N, 1%N)
        = ([:: Reference.points [:: 2%N] (2 + 1) Toy.walkers], Ok (alpha, beta))
        /\ Np.get 0 alpha [:: 0; 0; 0]%N = Some 1].
Proof.
have Hpos : Reference.array_of (Reference.PyJaxArray Toy.walkers) = Some Toy.walkers by [].
have Hsh : Np.shape Toy.walkers = rcons [:: 2%N] ((2 + 1) * 3)%N by [].
have Hlead : 0%N \notin [:: 2%N] by [].
have Hne : (0 < 2 + 1)%N by [].
split; [exact: toy_pointwise | exact: Hsh | by [] |].
have [alpha [beta [H1 H2 _]]] :=
  eval_orbitals_pointwise (toy_pointwise int) Hpos Hsh Hlead Hne.
exists alpha, beta; split; first exact: H1.
have Hidx : Np.ravel [:: 2%N] [:: 0%N] 0 = Some 0%N by [].
have Hr : (0 < 2)%N by [].
have Hc : (0 < minn 2 3)%N by [].
exact: (H2 [:: 0%N] 0%N 0%N 0%N Hidx Hr Hc).
Defined.

(** X3 on four electrons of spin up and the three orbitals. *)
Lemma eval_slater_too_few_orbitals_witness :
  let pts := NdArray [:: 4; 3]%N (Np.data ToyRun.four_electrons) in
  let up := Reference.orbitals_at 3 (@Toy.orbitals int) pts in
  [/\ Np.shape ToyRun.four_electrons = rcons [:: 1%N] ((4 + 0) * 3)%N,
      (0%N \notin [:: 1%N]) && ((3 < 4)%N || (3 < 0)%N),
      Reference.eval_mos (Toy.scf int) pts = [:: up; up],
      Np.shape up = [:: 4; 3]%N
    & exists msg,
        Reference.eval_slater id (Toy.scf int)
          (Reference.PyNdarray ToyRun.four_electrons) (4%N, 0%N)
        = ([:: pts], Raise (LinAlgError msg))].
Proof.
move=> pts up.
have Hpos : Reference.array_of (Reference.PyNdarray ToyRun.four_electrons)
            = Some ToyRun.four_electrons by [].
have Hsh : Np.shape ToyRun.four_electrons = rcons [:: 1%N] ((4 + 0) * 3)%N by [].
have Hlead : 0%N \notin [:: 1%N] by [].
have Hmos : Reference.eval_mos (Toy.scf int)
              (Reference.points [:: 1%N] (4 + 0) ToyRun.four_electrons)
            = [:: up; up] by [].
have Hup : Np.shape up = [:: (prodn [:: 1%N] * (4 + 0))%N; 3%N] by [].
have Hfew : (3 < 4)%N || (3 < 0)%N by [].
split=> //.
exact: (eval_slater_too_few_orbitals id Hpos Hsh Hlead Hmos Hup Hup Hfew).
Defined.

(** X4 on the two walkers, all three electrons of spin up. *)
Lemma eval_slater_spin_polarised_witness :
  let pts := NdArray [:: 6; 3]%N (Np.data Toy.walkers) in
  let up := Reference.orbitals_at 3 (@Toy.orbitals int) pts in
  [/\ Np.shape Toy.walkers = rcons [:: 2%N] (3 * 3)%N,
      [&& 0%N \notin [:: 2%N], (0 < 3)%N & (3 <= 3)%N],
      Reference.eval_mos (Toy.scf int) pts = [:: up; up],
      Np.shape up = [:: 6; 3]%N
    & exists alpha sign_alpha log_alpha,
        Reference.slogdet id alpha = Ok (sign_alpha, log_alpha)
        /\ Reference.eval_slater id (Toy.scf int) (Reference.PyNdarray Toy.walkers)
             (3%N, 0%N)
           = ([:: pts],
              Ok (sign_alpha,
                  NdArray [:: 2%N] [seq x + 1 | x <- Np.data log_alpha]))].
Proof.
move=> pts up.
have Hpos : Reference.array_of (Reference.PyNdarray Toy.walkers) = Some Toy.walkers by [].
have Hsh : Np.shape Toy.walkers = rcons [:: 2%N] (3 * 3)%N by [].
have Hlead : 0%N \notin [:: 2%N] by [].
have Hne : (0 < 3)%N by [].
have Hmos : Reference.eval_mos (Toy.scf int)
              (Reference.points [:: 2%N] 3 Toy.walkers) = [:: up; up] by [].
have Hup : Np.shape up = [:: (prodn [:: 2%N] * 3)%N; 3%N] by [].
have Hnu : (3 <= 3)%N by [].
split; [by [] | by [] | exact: Hmos | by [] |].
have [alpha [beta [sa [la [_ _ H1 H2]]]]] :=
  eval_slater_spin_polarised id Hpos Hsh Hlead Hne Hmos Hup Hup Hnu.
by exists alpha, sa, la.
Defined.

(** X5 on a configuration whose two spin-up electrons coincide. *)
Lemma eval_orbitals_coincident_witness :
  [/\ Reference.pointwise (Toy.scf int) 3 (@Toy.orbitals int) (@Toy.orbitals int),
      Np.shape ToyRun.coincident = rcons [:: 1%N] ((2 + 1) * 3)%N,
      Reference.same_spin 2 1 0 1 /\ Np.ravel [:: 1%N] [:: 0%N] 0 = Some 0%N,
      Np.block 3 (Np.data ToyRun.coincident) (0 * (2 + 1) + 0)
      = Np.block 3 (Np.data ToyRun.coincident) (0 * (2 + 1) + 1)
    & exists alpha beta,
        Reference.eval_orbitals (Toy.scf int)
          (Reference.PyNdarray ToyRun.coincident) (2%N, 1%N)
        = ([:: Reference.points [:: 1%N] (2 + 1) ToyRun.coincident],
           Ok (alpha, beta))
        /\ exists2 v, Np.get 0 alpha [:: 0; 0; 0]%N = Some v
                    & Np.get 0 alpha [:: 0; 1; 0]%N = Some v].
Proof.
have Hpos : Reference.array_of (Reference.PyNdarray ToyRun.coincident)
            = Some ToyRun.coincident by [].
have Hsh : Np.shape ToyRun.coincident = rcons [:: 1%N] ((2 + 1) * 3)%N by [].
have Hspin : Reference.same_spin 2 1 0 1 by [].
have Hidx : Np.ravel [:: 1%N] [:: 0%N] 0 = Some 0%N by [].
have Hsame : Np.block 3 (Np.data ToyRun.coincident) (0 * (2 + 1) + 0)
             = Np.block 3 (Np.data ToyRun.coincident) (0 * (2 + 1) + 1) by [].
split; [exact: toy_pointwise | exact: Hsh | by split | exact: Hsame |].
have [alpha [beta [H1 H2 _]]] :=
  eval_orbitals_coincident (toy_pointwise int) Hpos Hsh Hspin Hidx Hsame.
exists alpha, beta; split; first exact: H1.
have Hi : (0 < 2)%N by [].
have Hc : (0 < minn 2 3)%N by [].
exact: (H2 Hi 0%N Hc).
Defined.

(** X6 on the two walkers: eighteen coordinates, six points. *)
Lemma eval_orbitals_coordinates_witness :
  Reference.array_of (Reference.PyJaxArray Toy.walkers) = Some Toy.walkers
  /\ (Reference.eval_orbitals (Toy.scf int) (Reference.PyJaxArray Toy.walkers)
        (2%N, 1%N)).1
     = [:: NdArray [:: 6; 3]%N (Np.data Toy.walkers)].
Proof.
have Hpos : Reference.array_of (Reference.PyJaxArray Toy.walkers) = Some Toy.walkers by [].
split; first exact: Hpos.
exact: (eval_orbitals_coordinates (Toy.scf int) (2%N, 1%N) Hpos).
Defined.

(** X7 on the two walkers of three electrons, read as one electron per
    configuration: the three rows of three orbital values become one row
    of nine. *)
Lemma eval_orbitals_spin_count_witness :
  let pts := NdArray [:: 6; 3]%N (Np.data Toy.walkers) in
  let up := Reference.orbitals_at 3 (@Toy.orbitals int) pts in
  [/\ Np.shape Toy.walkers = rcons [:: 2%N] (3 * 3)%N,
      0%N \notin [:: 2%N],
      Reference.eval_mos (Toy.scf int) pts = [:: up; up],
      Np.shape up = [:: 6; 3]%N
    & exists alpha beta,
        [/\ Reference.eval_orbitals (Toy.scf int) (Reference.PyNdarray Toy.walkers)
              (1%N, 0%N) = ([:: pts], Ok (alpha, beta)),
            Np.shape alpha = [:: 2; 1; 1]%N
          & Np.shape beta = [:: 2; 0; 0]%N]].
Proof.
move=> pts up.
have Hpos : Reference.array_of (Reference.PyNdarray Toy.walkers) = Some Toy.walkers by [].
have Hsh : Np.shape Toy.walkers = rcons [:: 2%N] (3 * 3)%N by [].
have Hlead : 0%N \notin [:: 2%N] by [].
have Hmos : Reference.eval_mos (Toy.scf int)
              (Reference.points [:: 2%N] 3 Toy.walkers) = [:: up; up] by [].
have Hup : Np.shape up = [:: (prodn [:: 2%N] * 3)%N; 3%N] by [].
split=> //.
exact: (@eval_orbitals_spin_count _ (Toy.scf int) _ _ _ _ _ _ _ 1 0
          Hpos Hsh Hlead Hmos Hup Hup).
Defined.

(** X9 on the first replica of the small system, with the default
    envelope type. *)
Lemma default_envelope_loss_witness :
  let x := Pretrain.r_data Toy.replica0 in
  let target := Pretrain.r_target Toy.replica0 in
  let os := [:: NdArray [:: 1; 1; 1; 1]%N [:: 1 : rat];
                NdArray [:: 1; 1; 1; 1]%N [:: 1 : rat]] in
  [/\ "full"%string <> "exact_cusp"%string /\ "full"%string <> "output"%string,
      Toy.exp 0 = 1 /\ (0 < 2)%N,
      Np.shape x = [:: 1; 6]%N,
      Toy.batch_orbitals 1 x = Ok os
    & Pretrain.loss_result Toy.exp id
        (Pretrain.vmap
           (Pretrain.envelope_fn ToyRun.construct_input_features
              ToyRun.exact_cusp_envelope ToyRun.output_envelope "full"
              (NdArray [:: 1; 3]%N [:: 0; 0; 0]) (NdArray [:: 1%N] [:: 2%:R])
              (1%N, 1%N)))
        Toy.batch_orbitals false 2 x 1 target
      = (rs <- mapM (fun to => plain_error to.1 to.2) (zip target os) ;;
         Ok (foldr +%R 0 rs))%res].
Proof.
move=> x target os.
have H1 : "full"%string <> "exact_cusp"%string by [].
have H2 : "full"%string <> "output"%string by [].
have Hexp : Toy.exp 0 = 1 by by_vm.
have Hn : (0 < 2)%N by [].
have Hx : Np.shape x = [:: 1; 6]%N by [].
have Hos : Toy.batch_orbitals 1 x = Ok os by [].
have Hsh : forall o, List.In o os ->
    Np.wf o /\ exists k r c, Np.shape o = [:: 1%N; k; r; c].
  move=> o; rewrite /List.In.
  case=> [<-|]; first by split=> //; exists 1%N, 1%N, 1%N.
  case=> [<-|]; first by split=> //; exists 1%N, 1%N, 1%N.
  by case.
split; [by split | by split | exact: Hx | exact: Hos |].
exact: (default_envelope_loss id ToyRun.construct_input_features
          ToyRun.exact_cusp_envelope ToyRun.output_envelope
          (NdArray [:: 1; 3]%N [:: 0; 0; 0]) (NdArray [:: 1%N] [:: 2%:R]) (1%N, 1%N)
          false target H1 H2 Hexp Hn Hx Hos Hsh).
Defined.


(** X11 on two devices without walkers. *)
Lemma pretrain_loop_empty_batch_witness :
  let pts := Reference.points [:: 2%N; 0%N] (1 + 1) (NdArray [:: 2%N; 0%N; 6%N] [::]) in
  let mo := Reference.orbitals_at 3 (@Toy.orbitals rat) pts in
  [/\ Np.shape (Pretrain.ls_data ToyRun.empty_state)
      = rcons [:: 2%N; 0%N] ((1 + 1) * 3)%N,
      (prodn [:: 2%N; 0%N] * (1 + 1))%N = 0%N,
      Reference.eval_mos (Toy.scf rat) pts = [:: mo; mo]
    & exists msg,
        ToyRun.pretrain_loop 0 1 ToyRun.empty_state = ([::], Raise (ValueError msg))].
Proof.
move=> pts mo.
have Hsh : Np.shape (Pretrain.ls_data ToyRun.empty_state)
           = rcons [:: 2%N; 0%N] (((1%N, 1%N).1 + (1%N, 1%N).2) * 3)%N by [].
have H0 : (prodn [:: 2%N; 0%N] * ((1%N, 1%N).1 + (1%N, 1%N).2))%N = 0%N by [].
have Hmos : Reference.eval_mos (Toy.scf rat)
              (Reference.points [:: 2%N; 0%N] ((1%N, 1%N).1 + (1%N, 1%N).2)
                 (Pretrain.ls_data ToyRun.empty_state))
            = mo :: [:: mo] by [].
split=> //.
exact: (pretrain_loop_empty_batch Toy.exp id Toy.apply_updates Toy.mh_update
          Toy.grad (@Pretrain.pmean rat) Toy.p_split Toy.batch_network
          Toy.batch_envelope_fn Toy.batch_orbitals Toy.sgd false 0 0 Hsh H0 Hmos).
Defined.

(** X12 on two devices that start from the parameter 1. *)
Lemma pretrain_hartree_fock_replicated_witness :
  exists log ps' data',
    [/\ identical [:: 1; 1 : rat],
        ToyRun.pretrain_hartree_fock [:: 1; 1] Toy.data0 Toy.batch_network
          [:: 7%N; 8%N] ToyRun.molecule (1%N, 1%N) (Toy.scf rat) None None (Some 2%N)
        = (log, Ok (ps', data'))
      & identical ps'].
Proof.
let v := eval vm_compute in
  (ToyRun.pretrain_hartree_fock [:: 1; 1] Toy.data0 Toy.batch_network
     [:: 7%N; 8%N] ToyRun.molecule (1%N, 1%N) (Toy.scf rat) None None (Some 2%N)) in
match v with
| (?l, Ok (?p, ?d)) =>
    have Hrun : ToyRun.pretrain_hartree_fock [:: 1; 1] Toy.data0 Toy.batch_network
                  [:: 7%N; 8%N] ToyRun.molecule (1%N, 1%N) (Toy.scf rat) None None
                  (Some 2%N) = (l, Ok (p, d))
      by vm_cast_no_check (@erefl _ v)
end.
have Hps : identical [:: 1; 1 : rat].
  move=> x y; rewrite /List.In.
  by case=> [<-|[<-|[]]]; case=> [<-|[<-|[]]].
have Hrun' := Hrun; rewrite /ToyRun.pretrain_hartree_fock in Hrun'.
do 3!eexists; split; [exact: Hps | exact: Hrun |].
exact: (pretrain_hartree_fock_replicated Hps Hrun').
Defined.


(** X16 on the two walkers, exchanging the two spin-up electrons. *)
Lemma eval_orbitals_exchange_witness :
  [/\ Reference.pointwise (Toy.scf int) 3 (@Toy.orbitals int) (@Toy.orbitals int),
      Np.shape Toy.walkers = rcons [:: 2%N] ((2 + 1) * 3)%N /\ Np.wf Toy.walkers,
      (0%N \notin [:: 2%N]) && Reference.same_spin 2 1 0 1
    & exists alpha beta alpha' beta',
        [/\ Reference.eval_orbitals (Toy.scf int) (Reference.PyJaxArray Toy.walkers)
              (2%N, 1%N)
            = ([:: Reference.points [:: 2%N] (2 + 1) Toy.walkers], Ok (alpha, beta)),
            Reference.eval_orbitals (Toy.scf int)
              (Reference.swap_pos (2 + 1) 0 1 (Reference.PyJaxArray Toy.walkers))
              (2%N, 1%N)
            = ([:: Reference.points [:: 2%N] (2 + 1)
                     (Reference.swap_electrons (2 + 1) 0 1 Toy.walkers)],
               Ok (alpha', beta'))
          & exists2 v, Np.get 0 alpha' [:: 0; 0; 0]%N = Some v
                     & Np.get 0 alpha [:: 0; 1; 0]%N = Some v]].
Proof.
have Hpos : Reference.array_of (Reference.PyJaxArray Toy.walkers) = Some Toy.walkers by [].
have Hsh : Np.shape Toy.walkers = rcons [:: 2%N] ((2 + 1) * 3)%N by [].
have Hwf : Np.wf Toy.walkers by [].
have Hlead : 0%N \notin [:: 2%N] by [].
have Hspin : Reference.same_spin 2 1 0 1 by [].
split; [exact: toy_pointwise | by split | by [] |].
have [alpha [beta [alpha' [beta' [H1 H2 H3 _]]]]] :=
  eval_orbitals_exchange (toy_pointwise int) Hpos Hsh Hwf Hlead Hspin.
exists alpha, beta, alpha', beta'; split; [exact: H1 | exact: H2 |].
have Hidx : Np.ravel [:: 2%N] [:: 0%N] 0 = Some 0%N by [].
have Hr : (0 < 2)%N by [].
have Hc : (0 < minn 2 3)%N by [].
exact: (proj2 (H3 [:: 0%N] 0%N 0%N 0%N Hidx Hr Hc)).
Defined.

End ToyRuns.
